(** * hidden_zip: scanning a Zip archive for local file headers

    A shallow embedding of [main.go]: the signature scanner [scanReader], the
    tolerant header decoder [nextFileHeader], the reporting loop
    [searchFileHeaders] and [main], followed by the properties of the code.

    Conventions of the embedding.
    - A byte is a [Byte.byte]; a [[]byte] is a [list byte]; a Go [string] is
      a [string] (a sequence of bytes).
    - [uint16] and [uint32] values are [Z] with the wrap-around written out.
    - [io.ReadSeeker] is the class [ReadSeeker]: a reader is a state, [Read]
      and [Seek] return the successor state next to their Go results.
    - A Go [for] loop is a [Fixpoint] on a bound [gas] of iterations; running
      out of it is the separate outcome [OutOfGas]. *)

From Stdlib Require Import String Ascii DecimalString.
From Stdlib Require Import ZArith List Lia Bool Arith Sorted.
From Stdlib.Strings Require Import Byte.
Import ListNotations.

Local Open Scope nat_scope.

(** ** Errors and outcomes *)

(** The values of Go's [error] the program can meet: [io.EOF] and the
    [*fs.PathError] of a failed [os.File] operation. *)
Inductive error : Type :=
| EOF
| PathError (op path msg : string).

(** [err.Error()]. *)
Definition Error (e : error) : string :=
  match e with
  | EOF => "EOF"
  | PathError op path msg => op ++ " " ++ path ++ ": " ++ msg
  end%string.

(** What a call does: return a value, return a non-nil [error], panic, or
    exceed the iteration bound of the model. *)
Inductive outcome (A : Type) : Type :=
| Done (a : A)
| Fail (e : error)
| Panic (msg : string)
| OutOfGas.

Arguments Done {A} a.
Arguments Fail {A} e.
Arguments Panic {A} msg.
Arguments OutOfGas {A}.

(** ** Byte strings *)

(** [s[a:b]] within the slice's capacity. *)
Definition slice (s : list byte) (a b : nat) : list byte :=
  firstn (b - a) (skipn a s).

(** [bytes.HasPrefix]. *)
Fixpoint hasPrefix (s p : list byte) {struct p} : bool :=
  match p, s with
  | [], _ => true
  | _ :: _, [] => false
  | y :: p', x :: s' => Byte.eqb x y && hasPrefix s' p'
  end.

(** [bytes.Index(s, sep)]: the index of the first instance of [sep] in [s];
    [None] stands for -1. *)
Fixpoint Index (s sep : list byte) : option nat :=
  if hasPrefix s sep then Some 0
  else match s with
       | [] => None
       | _ :: s' => option_map S (Index s' sep)
       end.

(** ** Little-endian integers ([encoding/binary]) *)

Definition byteZ (b : byte) : Z := Z.of_N (Byte.to_N b).

Definition Zbyte (z : Z) : byte :=
  match Byte.of_N (Z.to_N (z mod 256)) with
  | Some b => b
  | None => x00
  end.

(** [binary.LittleEndian.Uint16], [Uint32] on the first bytes of [b]. *)
Definition Uint16 (b : list byte) : Z :=
  Z.lor (byteZ (nth 0 b x00)) (Z.shiftl (byteZ (nth 1 b x00)) 8).

Definition Uint32 (b : list byte) : Z :=
  Z.lor (Z.lor (Z.lor (byteZ (nth 0 b x00))
                      (Z.shiftl (byteZ (nth 1 b x00)) 8))
               (Z.shiftl (byteZ (nth 2 b x00)) 16))
        (Z.shiftl (byteZ (nth 3 b x00)) 24).

(** [binary.LittleEndian.PutUint16], [PutUint32]. *)
Definition PutUint16 (v : Z) : list byte :=
  [Zbyte v; Zbyte (Z.shiftr v 8)].

Definition PutUint32 (v : Z) : list byte :=
  [Zbyte v; Zbyte (Z.shiftr v 8); Zbyte (Z.shiftr v 16); Zbyte (Z.shiftr v 24)].

(** [binary.Read(buf, binary.LittleEndian, &field)] on a [bytes.Buffer] for a
    field of [size] bytes, the returned error dropped as the caller drops it:
    [io.ReadFull] either delivers [size] bytes, which are decoded, or drains
    the buffer and leaves the field at its zero value. *)
Definition binaryRead (size : nat) (dec : list byte -> Z) (buf : list byte)
  : Z * list byte :=
  if length buf <? size then (0%Z, [])
  else (dec (firstn size buf), skipn size buf).

(** ** The program's constants and data *)

Definition fileHeaderSignature : Z := 0x04034b50.

(** [sep.Bytes()] after [binary.Write(sep, binary.LittleEndian,
    uint32(fileHeaderSignature))]; writing to a [bytes.Buffer] cannot fail. *)
Definition sepBytes : list byte := PutUint32 fileHeaderSignature.

Record FileHeader : Type := mkFileHeader {
  version : Z; flags : Z; compression : Z; mtime : Z; mdate : Z;
  namelen : Z; extralen : Z;
  crc32 : Z; csize : Z; size : Z;
  name : string;
  extra : list byte
}.

(** ** Readers *)

Inductive whence : Type := SeekStart | SeekCurrent | SeekEnd.

(** [io.ReadSeeker].  [Read r k] is [r.Read(p)] with [len(p) = k]: the bytes
    stored into [p[:n]], the error, and the reader afterwards.  [Seek r off w]
    is [r.Seek(off, w)]: the new position, the error, the reader afterwards. *)
Class ReadSeeker (R : Type) : Type := {
  Read : R -> nat -> list byte * option error * R;
  Seek : R -> Z -> whence -> Z * option error * R
}.

(** A regular file opened for reading: its path, its bytes and the cursor. *)
Record File : Type := mkFile {
  path : string;
  contents : list byte;
  offset : nat
}.

Definition File_Read (f : File) (k : nat) : list byte * option error * File :=
  if k =? 0 then ([], None, f)
  else match skipn (offset f) (contents f) with
       | [] => ([], Some EOF, f)
       | avail =>
           let got := firstn k avail in
           (got, None, mkFile (path f) (contents f) (offset f + length got))
       end.

Definition File_Seek (f : File) (off : Z) (w : whence)
  : Z * option error * File :=
  let base := match w with
              | SeekStart => 0%Z
              | SeekCurrent => Z.of_nat (offset f)
              | SeekEnd => Z.of_nat (length (contents f))
              end in
  let target := (base + off)%Z in
  if (target <? 0)%Z
  then (0%Z, Some (PathError "seek" (path f) "invalid argument"), f)
  else (target, None, mkFile (path f) (contents f) (Z.to_nat target)).

#[export] Instance File_ReadSeeker : ReadSeeker File :=
  {| Read := File_Read; Seek := File_Seek |}.

(** A named pipe opened as a file: reads consume the pending bytes, every
    seek fails with ESPIPE. *)
Record Fifo : Type := mkFifo {
  fifoPath : string;
  pending : list byte
}.

Definition Fifo_Read (p : Fifo) (k : nat) : list byte * option error * Fifo :=
  if k =? 0 then ([], None, p)
  else match pending p with
       | [] => ([], Some EOF, p)
       | avail => (firstn k avail, None, mkFifo (fifoPath p) (skipn k avail))
       end.

Definition Fifo_Seek (p : Fifo) (off : Z) (w : whence)
  : Z * option error * Fifo :=
  (0%Z, Some (PathError "seek" (fifoPath p) "illegal seek"), p).

#[export] Instance Fifo_ReadSeeker : ReadSeeker Fifo :=
  {| Read := Fifo_Read; Seek := Fifo_Seek |}.

(** ** The scanner and the decoder *)

Definition bufSize : nat := 4096.

(** [headersize := 30 + 255]. *)
Definition headersize : nat := 30 + 255.

(** The ten [binary.Read] calls of [nextFileHeader] on
    [bytes.NewBuffer(rest)], in the order of the source. *)
Definition readFields (rest : list byte) : FileHeader :=
  let '(v_version, b) := binaryRead 2 Uint16 rest in
  let '(v_flags, b) := binaryRead 2 Uint16 b in
  let '(v_compression, b) := binaryRead 2 Uint16 b in
  let '(v_mtime, b) := binaryRead 2 Uint16 b in
  let '(v_mdate, b) := binaryRead 2 Uint16 b in
  let '(v_crc32, b) := binaryRead 4 Uint32 b in
  let '(v_csize, b) := binaryRead 4 Uint32 b in
  let '(v_size, b) := binaryRead 4 Uint32 b in
  let '(v_namelen, b) := binaryRead 2 Uint16 b in
  let '(v_extralen, _) := binaryRead 2 Uint16 b in
  mkFileHeader v_version v_flags v_compression v_mtime v_mdate
               v_namelen v_extralen v_crc32 v_csize v_size EmptyString [].

(** [uint16] addition. *)
Definition add16 (a b : Z) : Z := ((a + b) mod 65536)%Z.

(** [h.namelen > 255 || h.extralen > 255 || h.namelen+h.extralen > 255]. *)
Definition implausible (h : FileHeader) : bool :=
  (namelen h >? 255)%Z || (extralen h >? 255)%Z
  || (add16 (namelen h) (extralen h) >? 255)%Z.

(** [h.name] and [h.extra] filled in from [backing], the bytes of [rest]
    followed by what lies behind it within its capacity:
    [rest[26 : 26+h.namelen]] and
    [rest[26+h.namelen : 26+h.namelen+h.extralen]], the bounds computed in
    [uint16]. *)
Definition withNameExtra (h : FileHeader) (backing : list byte) : FileHeader :=
  let a := Z.to_nat (add16 26 (namelen h)) in
  let b := Z.to_nat (add16 (add16 26 (namelen h)) (extralen h)) in
  mkFileHeader (version h) (flags h) (compression h) (mtime h) (mdate h)
               (namelen h) (extralen h) (crc32 h) (csize h) (size h)
               (string_of_list_byte (slice backing 26 a))
               (slice backing a b).

Section Scanner.

Context {R : Type} `{ReadSeeker R}.

(** The loop of [scanReader].  [held] is [buf[:start]], so [start] is
    [length held]; [window] is [buf[:n]] after [n += start].  The slice
    expression [buf[n-start:]] panics when [n < start]. *)
Fixpoint scanLoop (gas : nat) (r : R) (sep held : list byte)
  : outcome (list byte * R) :=
  match gas with
  | O => OutOfGas
  | S gas' =>
      let '(got, err, r') := Read r (bufSize - length held) in
      match err with
      | Some e => Fail e
      | None =>
          let window := held ++ got in
          match Index window sep with
          | Some idx => Done (skipn (idx + length sep) window, r')
          | None =>
              let start := length sep - 1 in
              if length window <? start
              then Panic "slice bounds out of range"
              else scanLoop gas' r' sep
                     (slice window (length window - start) (length window))
          end
      end
  end.

(** [scanReader(r, sep)]: [start := 0]. *)
Definition scanReader (gas : nat) (r : R) (sep : list byte)
  : outcome (list byte * R) :=
  scanLoop gas r sep [].

(** Lines 67-75 of [nextFileHeader]: when [rest] is shorter than
    [headersize], [headersize] zero bytes are appended, one [Read] fills
    them from the front, and [rest] is re-sliced to
    [rest[len(rest)-headersize : len(rest)-headersize+n]], the [n] bytes of
    that read.  The result is the new [rest], the zero bytes left behind it
    in the appended block, and the reader.  When [rest] is long enough
    nothing is read; what lies behind it in the scanner's buffer is then
    never addressed, since [26 + 255 < headersize], and is left out. *)
Definition topUp (r : R) (rest : list byte)
  : outcome (list byte * list byte * R) :=
  if length rest <? headersize then
    let '(got, err, r') := Read r headersize in
    match err with
    | Some e => Fail e
    | None => Done (got, repeat x00 (headersize - length got), r')
    end
  else Done (rest, [], r).

(** A matched signature with its lookahead: lines 62-75. *)
Definition candidate (gas : nat) (r : R)
  : outcome (list byte * list byte * R) :=
  match scanReader gas r sepBytes with
  | Done (rest, r1) => topUp r1 rest
  | Fail e => Fail e
  | Panic m => Panic m
  | OutOfGas => OutOfGas
  end.

(** One iteration of the loop of [nextFileHeader]: [Done (Some h, r')] is
    [return &h, nil], [Done (None, r')] is [continue]. *)
Definition attempt (gas : nat) (r : R) : outcome (option FileHeader * R) :=
  match candidate gas r with
  | Done (rest, spare, r2) =>
      let h := readFields rest in
      if implausible h then
        let '(_, _, r3) := Seek r2 (- Z.of_nat (length rest))%Z SeekCurrent in
        Done (None, r3)
      else
        let h := withNameExtra h (rest ++ spare) in
        let '(_, err, r3) :=
          Seek r2 (- Z.of_nat (length rest) + 26 + namelen h + extralen h)%Z
               SeekCurrent in
        match err with
        | Some e => Fail e
        | None => Done (Some h, r3)
        end
  | Fail e => Fail e
  | Panic m => Panic m
  | OutOfGas => OutOfGas
  end.

(** The loop of [nextFileHeader]; [gas] bounds each scan inside it. *)
Fixpoint nextLoop (gas fuel : nat) (r : R) : outcome (FileHeader * R) :=
  match fuel with
  | O => OutOfGas
  | S fuel' =>
      match attempt gas r with
      | Done (Some h, r') => Done (h, r')
      | Done (None, r') => nextLoop gas fuel' r'
      | Fail e => Fail e
      | Panic m => Panic m
      | OutOfGas => OutOfGas
      end
  end.

(** [nextFileHeader(r)]. *)
Definition nextFileHeader (gas : nat) (r : R) : outcome (FileHeader * R) :=
  nextLoop gas gas r.

End Scanner.

(** ** Reporting *)

Definition newline : string := String (ascii_of_nat 10) EmptyString.

(** [%d] of a non-negative integer. *)
Definition decimal (z : Z) : string := NilZero.string_of_int (Z.to_int z).

(** [fmt.Printf("%s at %d len %d\n", header.name, pos, header.size)]. *)
Definition headerLine (h : FileHeader) (pos : Z) : string :=
  (name h ++ " at " ++ decimal pos ++ " len " ++ decimal (size h) ++ newline)%string.

Section Driver.

Context {R : Type} `{ReadSeeker R}.

(** The loop of [searchFileHeaders] on the opened file; [out] is what has
    been written to standard output so far.  The result is the output and
    how the function ends: [Fail e] is [return err]. *)
Fixpoint searchLoop (gas fuel : nat) (r : R) (out : string)
  : string * outcome unit :=
  match fuel with
  | O => (out, OutOfGas)
  | S fuel' =>
      match nextFileHeader gas r with
      | Done (header, r1) =>
          let '(pos, err, r2) := Seek r1 0%Z SeekCurrent in
          match err with
          | Some e => (out, Fail e)
          | None => searchLoop gas fuel' r2 (out ++ headerLine header pos)
          end
      | Fail e => (out, Fail e)
      | Panic m => (out, Panic m)
      | OutOfGas => (out, OutOfGas)
      end
  end.

End Driver.

(** The files the process can open: the bytes stored under each path. *)
Definition filesystem : Type := string -> option (list byte).

(** [os.Open(filename)]. *)
Definition os_Open (fs : filesystem) (filename : string) : File + error :=
  match fs filename with
  | Some bytes => inl (mkFile filename bytes 0)
  | None => inr (PathError "open" filename "no such file or directory")
  end.

(** [searchFileHeaders(filename)]. *)
Definition searchFileHeaders (gas : nat) (fs : filesystem) (filename : string)
  : string * outcome unit :=
  match os_Open fs filename with
  | inr e => (EmptyString, Fail e)
  | inl f => searchLoop gas gas f EmptyString
  end.

(** How the process ends: [main] returns (exit status 0), the runtime
    aborts on a panic (exit status 2), or the model's bound is exceeded. *)
Inductive termination : Type :=
| Exit (code : Z)
| Abort (msg : string)
| Unfinished.

Definition usage (prog : string) : string :=
  ("Usage: " ++ prog ++ " <file.zip>" ++ newline
   ++ "Find hidden files in a Zip archive by looking for local file headers."
   ++ newline)%string.

(** [main()] on the argument vector [args] ([os.Args]): standard output and
    the way the process ends. *)
Definition main (gas : nat) (fs : filesystem) (args : list string)
  : string * termination :=
  let banner :=
    if length args =? 2 then Done EmptyString
    else match nth_error args 0 with
         | Some prog => Done (usage prog)
         | None => Panic "index out of range [0] with length 0"
         end in
  match banner with
  | Done out0 =>
      match nth_error args 1 with
      | None =>
          (out0,
           Abort ("index out of range [1] with length "
                  ++ decimal (Z.of_nat (length args))))
      | Some filename =>
          match searchFileHeaders gas fs filename with
          | (out, Fail e) => ((out0 ++ out ++ Error e ++ newline)%string, Exit 0)
          | (out, Done _) => ((out0 ++ out)%string, Exit 0)
          | (out, Panic m) => ((out0 ++ out)%string, Abort m)
          | (out, OutOfGas) => ((out0 ++ out)%string, Unfinished)
          end
      end
  | Panic m => (EmptyString, Abort m)
  | _ => (EmptyString, Unfinished)
  end.

(** ** Specification vocabulary *)

(** [sep] occurs in [s] at index [i]. *)
Definition occursAt (s sep : list byte) (i : nat) : Prop :=
  hasPrefix (skipn i s) sep = true.

(** [i] is the first index at or after [p] where [sep] occurs in [s]. *)
Definition firstFrom (s sep : list byte) (p i : nat) : Prop :=
  p <= i /\ occursAt s sep i /\ forall j, p <= j -> j < i -> ~ occursAt s sep j.

(** No occurrence of [sep] in [s] starts at or after [p]. *)
Definition noneFrom (s sep : list byte) (p : nat) : Prop :=
  forall j, p <= j -> ~ occursAt s sep j.

(** The end of a read of [k] bytes at offset [c] of a file of [data]. *)
Definition chunkEnd (data : list byte) (c k : nat) : nat :=
  Nat.min (length data) (c + k).

(** The file [f] with its cursor at [c]. *)
Definition at_offset (f : File) (c : nat) : File :=
  mkFile (path f) (contents f) c.

(** The loop invariant of [scanReader] on a file: [held], the bytes carried
    over at the front of the buffer, are the bytes of the file just before
    the cursor, and there are fewer of them than bytes in [sep]. *)
Definition carried (sep : list byte) (f : File) (held : list byte) : Prop :=
  length held <= offset f
  /\ held = slice (contents f) (offset f - length held) (offset f)
  /\ length held < length sep.

(** The end of the next read of the scanner's loop. *)
Definition nextEnd (f : File) (held : list byte) : nat :=
  chunkEnd (contents f) (offset f) (bufSize - length held).

(** The bytes of a file followed by the [headersize] zero bytes that
    [append] leaves behind a lookahead cut short by the end of the file. *)
Definition padded (data : list byte) : list byte :=
  data ++ repeat x00 headersize.

(** While the file lasts, the read number [k+1] of a scan for the signature
    started at offset [p] ends at [boundary p k]: the first read fills the
    whole buffer, each later one the buffer less the three bytes held. *)
Definition boundary (p k : nat) : nat :=
  p + bufSize + k * (bufSize - 3).

(** The end of the read number [k+1] of such a scan on a file of [data]:
    the read is cut short where the file ends. *)
Definition readEnd (data : list byte) (p k : nat) : nat :=
  Nat.min (length data) (boundary p k).

(** The read number [k+1] of a scan started at [p] is the first one with the
    four bytes of the signature at [i] in the buffer: the read before it, if
    there is one, ends before the signature does. *)
Definition completedBy (p i k : nat) : Prop :=
  (k = 0 \/ boundary p (k - 1) < i + 4) /\ i + 4 <= boundary p k.

(** The three bounds of the plausibility test, on the decoded lengths. *)
Definition withinBounds (h : FileHeader) : Prop :=
  (namelen h <= 255 /\ extralen h <= 255 /\ namelen h + extralen h <= 255)%Z.

(** The headers the loop of [searchFileHeaders] obtains from
    [nextFileHeader], in order, each with the position that
    [f.Seek(0, io.SeekCurrent)] returns for it. *)
Fixpoint foundHeaders {R : Type} `{ReadSeeker R} (gas fuel : nat) (r : R)
  : list (FileHeader * Z) :=
  match fuel with
  | O => []
  | S fuel' =>
      match nextFileHeader gas r with
      | Done (header, r1) =>
          let '(pos, err, r2) := Seek r1 0%Z SeekCurrent in
          match err with
          | Some _ => []
          | None => (header, pos) :: foundHeaders gas fuel' r2
          end
      | _ => []
      end
  end.

(** The fixed 26-byte layout of a local file header behind its signature,
    read in little-endian order at offset [q] of [data]. *)
Definition fieldsAt (data : list byte) (q : nat) : FileHeader :=
  mkFileHeader (Uint16 (skipn q data)) (Uint16 (skipn (q + 2) data))
               (Uint16 (skipn (q + 4) data)) (Uint16 (skipn (q + 6) data))
               (Uint16 (skipn (q + 8) data))
               (Uint16 (skipn (q + 22) data)) (Uint16 (skipn (q + 24) data))
               (Uint32 (skipn (q + 10) data)) (Uint32 (skipn (q + 14) data))
               (Uint32 (skipn (q + 18) data))
               EmptyString [].

(** The lines printed for a sequence of headers with their positions. *)
Fixpoint reportLines (hs : list (FileHeader * Z)) : string :=
  match hs with
  | [] => EmptyString
  | (h, pos) :: hs' => (headerLine h pos ++ reportLines hs')%string
  end.

(** ** Sample streams *)

(** A local file header record as bytes: signature, the ten fixed fields in
    little-endian order, the name, the extra field. *)
Definition fixedPart (h : FileHeader) : list byte :=
  sepBytes ++ PutUint16 (version h) ++ PutUint16 (flags h)
  ++ PutUint16 (compression h) ++ PutUint16 (mtime h) ++ PutUint16 (mdate h)
  ++ PutUint32 (crc32 h) ++ PutUint32 (csize h) ++ PutUint32 (size h)
  ++ PutUint16 (namelen h) ++ PutUint16 (extralen h).

Definition localHeader (h : FileHeader) : list byte :=
  fixedPart h ++ list_byte_of_string (name h) ++ extra h.

(** A header as a Zip writer emits it and the decoder's policy admits it:
    every field within its width, the two lengths those of the name and of
    the extra field, and their sum at most 255. *)
Definition wellFormed (h : FileHeader) : Prop :=
  (0 <= version h < 65536 /\ 0 <= flags h < 65536
   /\ 0 <= compression h < 65536 /\ 0 <= mtime h < 65536
   /\ 0 <= mdate h < 65536 /\ 0 <= crc32 h < 4294967296
   /\ 0 <= csize h < 4294967296 /\ 0 <= size h < 4294967296)%Z
  /\ namelen h = Z.of_nat (String.length (name h))
  /\ extralen h = Z.of_nat (length (extra h))
  /\ (namelen h + extralen h <= 255)%Z.

(** The header of the stored entry [a.txt] of 12 bytes. *)
Definition headerA : FileHeader :=
  mkFileHeader 20 0 0 0x6000 0x5521 5 0 0xaf083b2d 12 12 "a.txt" [].

(** A well-formed archive of 120 bytes with that single entry: local header,
    the twelve bytes stored, central directory header, end of central
    directory record. *)
Definition archiveA : list byte :=
  localHeader headerA
  ++ list_byte_of_string ("hello world" ++ newline)
  ++ (PutUint32 0x02014b50 ++ PutUint16 20 ++ PutUint16 20 ++ PutUint16 0
      ++ PutUint16 0 ++ PutUint16 0x6000 ++ PutUint16 0x5521
      ++ PutUint32 0xaf083b2d ++ PutUint32 12 ++ PutUint32 12 ++ PutUint16 5
      ++ PutUint16 0 ++ PutUint16 0 ++ PutUint16 0 ++ PutUint16 0
      ++ PutUint32 0 ++ PutUint32 0 ++ list_byte_of_string "a.txt")
  ++ (PutUint32 0x06054b50 ++ PutUint16 0 ++ PutUint16 0 ++ PutUint16 1
      ++ PutUint16 1 ++ PutUint32 51 ++ PutUint32 47 ++ PutUint16 0).

(** A file system holding [data] under the one path [a.zip]. *)
Definition oneFile (data : list byte) : filesystem :=
  fun p => if String.eqb p "a.zip" then Some data else None.

(** The signature followed by 300 bytes [0xff]: both decoded lengths are
    65535. *)
Definition bogusStream : list byte := sepBytes ++ repeat xff 300.

(** [archiveA] behind 4000 zero bytes and followed by 200: the signature is
    at 4000, 92 bytes before the end of the scanner's first read. *)
Definition lateArchive : list byte :=
  repeat x00 4000 ++ archiveA ++ repeat x00 200.

(** [archiveA] behind 4094 zero bytes: its signature lies across the end of
    the scanner's first read at 4096. *)
Definition splitArchive : list byte :=
  repeat x00 4094 ++ archiveA ++ repeat x00 300.

(** A signature with exactly 300 bytes behind it in the scanner's first
    read, and 1000 more bytes in the file. *)
Definition shortLookahead : list byte :=
  repeat x00 3792 ++ sepBytes ++ repeat x00 1300.

(** A signature at 4000 with 36 bytes [0xff] behind it, the header of
    [a.txt] at 4040, and 300 bytes [0xff] from offset 4096 on. *)
Definition hiddenBehindBogus : list byte :=
  repeat x00 4000 ++ sepBytes ++ repeat xff 36 ++ localHeader headerA
  ++ repeat x00 21 ++ repeat xff 300.

(** The header of an entry [b.bin] with a two-byte extra field and declared
    sizes that are not zero. *)
Definition headerB : FileHeader :=
  mkFileHeader 20 8 8 0x6000 0x5521 5 2 0xdeadbeef 70000 123456 "b.bin"
               [x55; x54].

(** The headers of [a.txt] and [b.bin] back to back, then 300 zero bytes. *)
Definition twoEntries : list byte :=
  localHeader headerA ++ localHeader headerB ++ repeat x00 300.

(** A signature followed by 30 bytes [0xff], then the header of [a.txt] and
    300 zero bytes. *)
Definition bogusThenHeader : list byte :=
  sepBytes ++ repeat xff 30 ++ localHeader headerA ++ repeat x00 300.

(** A signature 96 bytes before the end of the first read, and ten bytes
    [0x01] behind that read. *)
Definition shortTail : list byte :=
  repeat x00 4000 ++ sepBytes ++ repeat x00 92 ++ repeat x01 10.

(** [archiveA] followed by 200 zero bytes. *)
Definition paddedArchive : list byte := archiveA ++ repeat x00 200.

(** The header of [a.txt] behind 5000 zero bytes and followed by 400: the
    scanner meets its signature in its second read. *)
Definition deepArchive : list byte :=
  repeat x00 5000 ++ localHeader headerA ++ repeat x00 400.

(** A signature with 30 bytes [0xff] behind it at 5000, the header of
    [a.txt] at 5034 and 400 zero bytes. *)
Definition deepBogusThenHeader : list byte :=
  repeat x00 5000 ++ sepBytes ++ repeat xff 30 ++ localHeader headerA
  ++ repeat x00 400.

(** The headers of [a.txt] and [b.bin] back to back behind 5000 zero bytes,
    then 400 zero bytes. *)
Definition deepTwoEntries : list byte :=
  repeat x00 5000 ++ localHeader headerA ++ localHeader headerB
  ++ repeat x00 400.

(** A signature at 8000, 185 bytes before the end of the scanner's second
    read, and ten bytes [0x01] behind that read. *)
Definition deepShortTail : list byte :=
  repeat x00 4000 ++ repeat x00 4000 ++ sepBytes ++ repeat x00 185
  ++ repeat x01 10.

(** The headers of [a.txt] and [b.bin] back to back behind 4000 zero bytes,
    then 400 zero bytes: the signature of [a.txt] is 96 bytes before the end
    of the scanner's first read, the header of [b.bin] lies at 4035. *)
Definition lateTwoEntries : list byte :=
  repeat x00 4000 ++ localHeader headerA ++ localHeader headerB
  ++ repeat x00 400.

(** [archiveA] with an archive comment of 200 spaces declared in its end of
    central directory record: a well-formed archive of 320 bytes with the
    single entry [a.txt]. *)
Definition commentedArchive : list byte :=
  firstn 118 archiveA ++ PutUint16 200 ++ repeat x20 200.

(** * Properties *)

(** ** Slices *)

Lemma slice_length (s : list byte) (a b : nat) :
  a <= b -> b <= length s -> length (slice s a b) = b - a.
Proof.
  intros Hab Hb. unfold slice.
  rewrite length_firstn, length_skipn. lia.
Qed.

Lemma slice_app (s : list byte) (a b c : nat) :
  a <= b -> b <= c -> b <= length s ->
  slice s a b ++ slice s b c = slice s a c.
Proof.
  intros Hab Hbc Hb. unfold slice.
  replace (c - a) with ((b - a) + (c - b)) by lia.
  rewrite <- (firstn_skipn (b - a) (firstn (b - a + (c - b)) (skipn a s))).
  rewrite firstn_firstn, skipn_firstn_comm, skipn_skipn.
  replace (Nat.min (b - a) (b - a + (c - b))) with (b - a) by lia.
  replace (b - a + (c - b) - (b - a)) with (c - b) by lia.
  replace (b - a + a) with b by lia.
  reflexivity.
Qed.

Lemma skipn_slice (s : list byte) (a b k : nat) :
  skipn k (slice s a b) = slice s (a + k) b.
Proof.
  unfold slice. rewrite skipn_firstn_comm, skipn_skipn.
  replace (b - a - k) with (b - (a + k)) by lia.
  replace (k + a) with (a + k) by lia.
  reflexivity.
Qed.

Lemma slice_slice (s : list byte) (a b x y : nat) :
  a + y <= b -> slice (slice s a b) x y = slice s (a + x) (a + y).
Proof.
  intros Hy. unfold slice at 1. rewrite skipn_slice.
  unfold slice. rewrite firstn_firstn.
  replace (Nat.min (y - x) (b - (a + x))) with (a + y - (a + x)) by lia.
  reflexivity.
Qed.

Lemma slice_from_start (s : list byte) (a : nat) :
  slice s a a = [].
Proof.
  unfold slice. rewrite Nat.sub_diag. reflexivity.
Qed.

(** ** [bytes.HasPrefix] and [bytes.Index] *)

Lemma hasPrefix_length (p s : list byte) :
  hasPrefix s p = true -> length p <= length s.
Proof.
  revert s. induction p as [|y p IH]; intros [|x s]; simpl; try lia; try discriminate.
  intros Hp. apply andb_true_iff in Hp. destruct Hp as [_ Hp].
  apply IH in Hp. lia.
Qed.

Lemma hasPrefix_firstn (p s : list byte) (m : nat) :
  hasPrefix (firstn m s) p = true <-> hasPrefix s p = true /\ length p <= m.
Proof.
  revert s m. induction p as [|y p IH]; intros s m; simpl.
  - split; [intros _; split; [reflexivity | lia] | reflexivity].
  - destruct m as [|m]; simpl.
    + split; [discriminate | intros [_ Hl]; lia].
    + destruct s as [|x s]; simpl.
      * split; [discriminate | intros [Hf _]; discriminate].
      * rewrite !andb_true_iff, IH. split.
        -- intros [Hx [Hp Hl]]. repeat split; auto; lia.
        -- intros [[Hx Hp] Hl]. repeat split; auto; lia.
Qed.

Lemma hasPrefix_eq (p s : list byte) :
  hasPrefix s p = true <-> firstn (length p) s = p.
Proof.
  revert s. induction p as [|y p IH]; intros s; simpl.
  - split; reflexivity.
  - destruct s as [|x s]; simpl.
    + split; discriminate.
    + rewrite andb_true_iff, IH. split.
      * intros [Hx Hp]. apply byte_dec_bl in Hx. congruence.
      * intros Heq. injection Heq as Hx Hp. split; [|exact Hp].
        apply byte_dec_lb. exact Hx.
Qed.

Lemma occursAt_bound (s sep : list byte) (i : nat) :
  0 < length sep -> occursAt s sep i -> i + length sep <= length s.
Proof.
  unfold occursAt. intros Hsep Ho.
  apply hasPrefix_length in Ho. rewrite length_skipn in Ho. lia.
Qed.

(** An occurrence inside the slice [s[a:b]] is an occurrence in [s] that ends
    at or before [b]. *)
Lemma occursAt_slice (s sep : list byte) (a b k : nat) :
  0 < length sep ->
  occursAt (slice s a b) sep k <->
  occursAt s sep (a + k) /\ a + k + length sep <= b.
Proof.
  intros Hsep. unfold occursAt. rewrite skipn_slice. unfold slice.
  rewrite hasPrefix_firstn. split.
  - intros [Hp Hl]. split; [exact Hp | ].
    apply hasPrefix_length in Hp. lia.
  - intros [Hp Hl]. split; [exact Hp | lia].
Qed.

Lemma Index_Some (s sep : list byte) (i : nat) :
  Index s sep = Some i <-> firstFrom s sep 0 i.
Proof.
  unfold firstFrom, occursAt. revert i.
  induction s as [|x s IH]; intros i.
  - cbn [Index]. destruct (hasPrefix [] sep) eqn:Hp.
    + split.
      * intros Hi. injection Hi as <-. repeat split; auto; intros; lia.
      * intros (_ & Ho & Hmin). destruct i as [|i]; [reflexivity|].
        exfalso. apply (Hmin 0); [lia | lia | exact Hp].
    + split; [discriminate|].
      intros (_ & Ho & _). rewrite skipn_nil in Ho. congruence.
  - cbn [Index]. destruct (hasPrefix (x :: s) sep) eqn:Hp.
    + split.
      * intros Hi. injection Hi as <-. repeat split; auto; intros; lia.
      * intros (_ & Ho & Hmin). destruct i as [|i]; [reflexivity|].
        exfalso. apply (Hmin 0); [lia | lia | exact Hp].
    + destruct i as [|i].
      * split.
        -- destruct (Index s sep); discriminate.
        -- intros (_ & Ho & _). simpl in Ho. congruence.
      * specialize (IH i). split.
        -- intros Hi. destruct (Index s sep) as [k|] eqn:Hk; [|discriminate].
           injection Hi as ->. destruct IH as [IH _].
           destruct (IH eq_refl) as (_ & Ho & Hmin).
           split; [lia|]. split; [exact Ho|].
           intros [|j] _ Hj; simpl; [congruence|].
           apply Hmin; lia.
        -- intros (_ & Ho & Hmin). destruct IH as [_ IH].
           rewrite IH; [reflexivity|].
           split; [lia|]. split; [exact Ho|].
           intros j _ Hj. apply (Hmin (S j)); lia.
Qed.

Lemma Index_None (s sep : list byte) :
  Index s sep = None <-> noneFrom s sep 0.
Proof.
  unfold noneFrom, occursAt.
  induction s as [|x s IH].
  - cbn [Index]. destruct (hasPrefix [] sep) eqn:Hp.
    + split; [discriminate|]. intros Hn. exfalso. apply (Hn 0); [lia|exact Hp].
    + split; [|reflexivity]. intros _ j _. rewrite skipn_nil. congruence.
  - cbn [Index]. destruct (hasPrefix (x :: s) sep) eqn:Hp.
    + split; [discriminate|]. intros Hn. exfalso. apply (Hn 0); [lia|exact Hp].
    + split.
      * intros Hi. destruct (Index s sep) eqn:Hk; [discriminate|].
        destruct IH as [IH _]. intros [|j] _; simpl; [congruence|].
        apply IH; [reflexivity | lia].
      * intros Hn. destruct IH as [_ IH]. rewrite IH; [reflexivity|].
        intros j _. apply (Hn (S j)). lia.
Qed.

Lemma occursAt_skipn (data sep : list byte) (p k : nat) :
  occursAt (skipn p data) sep k <-> occursAt data sep (p + k).
Proof.
  unfold occursAt. rewrite skipn_skipn.
  replace (k + p) with (p + k) by lia. reflexivity.
Qed.

(** Searching from offset [p] is searching the rest of the stream. *)
Lemma firstFrom_Index (data sep : list byte) (p k : nat) :
  Index (skipn p data) sep = Some k -> firstFrom data sep p (p + k).
Proof.
  intros Hk. apply Index_Some in Hk. destruct Hk as (_ & Ho & Hmin).
  split; [lia|]. split.
  - apply occursAt_skipn. exact Ho.
  - intros j Hj Hlt Hoj. apply (Hmin (j - p)); [lia | lia |].
    apply occursAt_skipn. replace (p + (j - p)) with j by lia. exact Hoj.
Qed.

Lemma noneFrom_Index (data sep : list byte) (p : nat) :
  Index (skipn p data) sep = None -> noneFrom data sep p.
Proof.
  intros Hk. apply Index_None in Hk. intros j Hj Hoj.
  apply (Hk (j - p)); [lia|].
  apply occursAt_skipn. replace (p + (j - p)) with j by lia. exact Hoj.
Qed.

(** ** Reading a regular file *)

Lemma firstn_min (l : list byte) (k : nat) :
  firstn k l = firstn (Nat.min k (length l)) l.
Proof.
  destruct (Nat.le_ge_cases k (length l)) as [Hk|Hk].
  - rewrite Nat.min_l by exact Hk. reflexivity.
  - rewrite Nat.min_r by exact Hk. rewrite !firstn_all2; auto.
Qed.

Lemma File_Read_eof (f : File) (k : nat) :
  0 < k -> length (contents f) <= offset f ->
  File_Read f k = ([], Some EOF, f).
Proof.
  intros Hk Hc. unfold File_Read.
  destruct (Nat.eqb_spec k 0) as [->|_]; [lia|].
  rewrite skipn_all2 by exact Hc. reflexivity.
Qed.

Lemma File_Read_data (f : File) (k : nat) :
  0 < k -> offset f < length (contents f) ->
  File_Read f k =
  (slice (contents f) (offset f) (chunkEnd (contents f) (offset f) k),
   None,
   at_offset f (chunkEnd (contents f) (offset f) k)).
Proof.
  intros Hk Hc. unfold File_Read, at_offset, chunkEnd, slice.
  destruct (Nat.eqb_spec k 0) as [->|_]; [lia|].
  assert (Hlen : length (skipn (offset f) (contents f))
                 = length (contents f) - offset f) by apply length_skipn.
  destruct (skipn (offset f) (contents f)) as [|b l] eqn:E.
  - simpl in Hlen. lia.
  - rewrite (firstn_min (b :: l) k), length_firstn, Hlen.
    replace (Nat.min (Nat.min k (length (contents f) - offset f))
                     (length (contents f) - offset f))
      with (Nat.min k (length (contents f) - offset f)) by lia.
    replace (Nat.min (length (contents f)) (offset f + k) - offset f)
      with (Nat.min k (length (contents f) - offset f)) by lia.
    replace (offset f + Nat.min k (length (contents f) - offset f))
      with (Nat.min (length (contents f)) (offset f + k)) by lia.
    reflexivity.
Qed.

Lemma chunkEnd_bounds (data : list byte) (c k : nat) :
  0 < k -> c < length data ->
  c < chunkEnd data c k /\ chunkEnd data c k <= length data
  /\ chunkEnd data c k <= c + k.
Proof. unfold chunkEnd. lia. Qed.

(** ** The scanner on a regular file *)

Section FileScan.

Variable sep : list byte.
Hypothesis sep_pos : 0 < length sep.
Hypothesis sep_fits : length sep <= bufSize.

Local Abbreviation carried := (carried sep).

Lemma carried_nil (f : File) : carried f [].
Proof.
  unfold carried. simpl. rewrite Nat.sub_0_r, slice_from_start.
  repeat split; auto; lia.
Qed.

Lemma scanLoop_eof (gas : nat) (f : File) (held : list byte) :
  carried f held -> length (contents f) <= offset f ->
  scanLoop (S gas) f sep held = Fail EOF.
Proof.
  intros (Hle & Heq & Hsh) Hc. cbn [scanLoop Read File_ReadSeeker].
  rewrite File_Read_eof by lia. reflexivity.
Qed.

Lemma scanLoop_hit (gas : nat) (f : File) (held : list byte) (i : nat) :
  carried f held ->
  firstFrom (contents f) sep (offset f - length held) i ->
  i + length sep <= nextEnd f held ->
  scanLoop (S gas) f sep held =
  Done (slice (contents f) (i + length sep) (nextEnd f held),
        at_offset f (nextEnd f held)).
Proof.
  intros (Hle & Heq & Hsh) (Hi & Ho & Hmin) Hend.
  pose proof (occursAt_bound _ _ _ sep_pos Ho) as Hb.
  assert (Hc : offset f < length (contents f)).
  { unfold nextEnd, chunkEnd in Hend. lia. }
  destruct (chunkEnd_bounds (contents f) (offset f) (bufSize - length held))
    as (Hc1 & Hc2 & Hc3); [lia | exact Hc |].
  cbn [scanLoop Read File_ReadSeeker].
  rewrite File_Read_data by lia. fold (nextEnd f held) in *.
  set (a := offset f - length held) in *.
  assert (Hw : held ++ slice (contents f) (offset f) (nextEnd f held)
               = slice (contents f) a (nextEnd f held)).
  { rewrite Heq at 1. apply slice_app; lia. }
  rewrite !Hw.
  assert (Hidx : Index (slice (contents f) a (nextEnd f held)) sep = Some (i - a)).
  { apply Index_Some. split; [lia|]. split.
    - apply occursAt_slice; [exact sep_pos|].
      replace (a + (i - a)) with i by lia. split; [exact Ho | lia].
    - intros j _ Hj Hoj. apply occursAt_slice in Hoj; [|exact sep_pos].
      destruct Hoj as [Hoj _]. apply (Hmin (a + j)); [lia | lia | exact Hoj]. }
  rewrite Hidx. cbv iota. rewrite skipn_slice.
  replace (a + (i - a + length sep)) with (i + length sep) by lia.
  reflexivity.
Qed.

Lemma scanLoop_miss (gas : nat) (f : File) (held : list byte) :
  carried f held ->
  offset f < length (contents f) ->
  (forall j, offset f - length held <= j ->
             j + length sep <= nextEnd f held ->
             ~ occursAt (contents f) sep j) ->
  scanLoop (S gas) f sep held =
  if nextEnd f held - (offset f - length held) <? length sep - 1
  then Panic "slice bounds out of range"
  else scanLoop gas (at_offset f (nextEnd f held)) sep
         (slice (contents f) (nextEnd f held - (length sep - 1))
                (nextEnd f held)).
Proof.
  intros (Hle & Heq & Hsh) Hc Hnone.
  destruct (chunkEnd_bounds (contents f) (offset f) (bufSize - length held))
    as (Hc1 & Hc2 & Hc3); [lia | exact Hc |].
  cbn [scanLoop Read File_ReadSeeker].
  rewrite File_Read_data by lia. fold (nextEnd f held) in *.
  set (a := offset f - length held) in *.
  assert (Hw : held ++ slice (contents f) (offset f) (nextEnd f held)
               = slice (contents f) a (nextEnd f held)).
  { rewrite Heq at 1. apply slice_app; lia. }
  rewrite !Hw.
  assert (Hidx : Index (slice (contents f) a (nextEnd f held)) sep = None).
  { apply Index_None. intros j _ Hoj.
    apply occursAt_slice in Hoj; [|exact sep_pos].
    destruct Hoj as [Hoj Hj]. apply (Hnone (a + j)); [lia | lia | exact Hoj]. }
  rewrite Hidx. cbv iota. rewrite slice_length by lia.
  destruct (Nat.ltb_spec (nextEnd f held - a) (length sep - 1)) as [Hs|Hs];
    [reflexivity|].
  rewrite slice_slice by lia.
  replace (a + (nextEnd f held - a - (length sep - 1)))
    with (nextEnd f held - (length sep - 1)) by lia.
  replace (a + (nextEnd f held - a)) with (nextEnd f held) by lia.
  reflexivity.
Qed.

Lemma carried_next (f : File) (held : list byte) :
  carried f held ->
  offset f < length (contents f) ->
  length sep - 1 <= nextEnd f held - (offset f - length held) ->
  carried (at_offset f (nextEnd f held))
          (slice (contents f) (nextEnd f held - (length sep - 1))
                 (nextEnd f held)).
Proof.
  intros (Hle & Heq & Hsh) Hc Hw.
  destruct (chunkEnd_bounds (contents f) (offset f) (bufSize - length held))
    as (Hc1 & Hc2 & Hc3); [lia | exact Hc |].
  fold (nextEnd f held) in *.
  unfold carried. cbn [at_offset offset contents].
  rewrite slice_length by lia.
  replace (nextEnd f held - (nextEnd f held - (length sep - 1)))
    with (length sep - 1) by lia.
  repeat split; lia.
Qed.

(** Either the next window holds the first occurrence at or after its
    start, or no occurrence lies inside it. *)
Lemma window_cases (f : File) (held : list byte) :
  carried f held ->
  offset f < length (contents f) ->
  (exists i, firstFrom (contents f) sep (offset f - length held) i
             /\ i + length sep <= nextEnd f held)
  \/ (forall j, offset f - length held <= j ->
                j + length sep <= nextEnd f held ->
                ~ occursAt (contents f) sep j).
Proof.
  intros (Hle & Heq & Hsh) Hc.
  set (a := offset f - length held).
  destruct (Index (slice (contents f) a (nextEnd f held)) sep) as [k|] eqn:Hk.
  - left. apply Index_Some in Hk. destruct Hk as (_ & Ho & Hmin).
    apply occursAt_slice in Ho; [|exact sep_pos]. destruct Ho as [Ho Hend].
    exists (a + k). split; [|exact Hend].
    split; [lia|]. split; [exact Ho|].
    intros j Hj Hlt Hoj. apply (Hmin (j - a)); [lia | lia |].
    apply occursAt_slice; [exact sep_pos|].
    replace (a + (j - a)) with j by lia. split; [exact Hoj | lia].
  - right. apply Index_None in Hk. intros j Hj Hend Hoj.
    apply (Hk (j - a)); [lia|].
    apply occursAt_slice; [exact sep_pos|].
    replace (a + (j - a)) with j by lia. split; [exact Hoj | lia].
Qed.

(** Whatever the bound, a match returned by the scanner is the first
    occurrence at or after the start of the search, together with all the
    bytes from its end to the cursor. *)
Lemma scanLoop_sound (gas : nat) :
  forall (f : File) (held rest : list byte) (f1 : File),
  carried f held ->
  scanLoop gas f sep held = Done (rest, f1) ->
  exists i,
    firstFrom (contents f) sep (offset f - length held) i
    /\ i + length sep <= offset f1 /\ offset f1 <= length (contents f)
    /\ offset f1 <= i + bufSize /\ offset f < offset f1
    /\ rest = slice (contents f) (i + length sep) (offset f1)
    /\ f1 = at_offset f (offset f1).
Proof.
  induction gas as [|gas IH]; intros f held rest f1 Hcar Hrun;
    [discriminate|].
  destruct (Nat.le_gt_cases (length (contents f)) (offset f)) as [Hc|Hc].
  { rewrite scanLoop_eof in Hrun by assumption. discriminate. }
  pose proof Hcar as (Hle & Heq & Hsh).
  destruct (chunkEnd_bounds (contents f) (offset f) (bufSize - length held))
    as (Hc1 & Hc2 & Hc3); [lia | exact Hc |].
  fold (nextEnd f held) in *.
  destruct (window_cases f held Hcar Hc) as [(i & Hfirst & Hend)|Hnone].
  - rewrite (scanLoop_hit gas f held i Hcar Hfirst Hend) in Hrun.
    injection Hrun as <- <-. exists i. cbn [at_offset offset].
    destruct Hfirst as (Hi & Ho & Hmin).
    repeat split; auto; lia.
  - rewrite (scanLoop_miss gas f held Hcar Hc Hnone) in Hrun.
    destruct (Nat.ltb_spec (nextEnd f held - (offset f - length held))
                           (length sep - 1)) as [Hs|Hs]; [discriminate|].
    apply IH in Hrun; [|apply carried_next; assumption].
    destruct Hrun as (i & (Hi & Ho & Hmin) & H1 & H2 & H3 & H4 & H5 & H6).
    cbn [at_offset offset contents] in *.
    rewrite slice_length in * by lia.
    exists i. repeat split; auto; try lia.
    intros j Hj Hlt Hoj.
    destruct (Nat.le_gt_cases (j + length sep) (nextEnd f held)) as [Hin|Hout].
    + apply (Hnone j); assumption.
    + apply (Hmin j); [lia | exact Hlt | exact Hoj].
Qed.

(** With enough iterations the scanner returns the first occurrence. *)
Lemma scanLoop_found (gas : nat) :
  forall (f : File) (held : list byte) (i : nat),
  carried f held ->
  firstFrom (contents f) sep (offset f - length held) i ->
  i + length sep - offset f < gas ->
  exists e,
    i + length sep <= e /\ e <= length (contents f) /\ e <= i + bufSize
    /\ scanLoop gas f sep held =
       Done (slice (contents f) (i + length sep) e, at_offset f e).
Proof.
  induction gas as [|gas IH]; intros f held i Hcar Hfirst Hgas; [lia|].
  pose proof Hcar as (Hle & Heq & Hsh).
  pose proof Hfirst as (Hi & Ho & Hmin).
  pose proof (occursAt_bound _ _ _ sep_pos Ho) as Hb.
  assert (Hc : offset f < length (contents f)) by lia.
  destruct (chunkEnd_bounds (contents f) (offset f) (bufSize - length held))
    as (Hc1 & Hc2 & Hc3); [lia | exact Hc |].
  fold (nextEnd f held) in *.
  destruct (Nat.le_gt_cases (i + length sep) (nextEnd f held)) as [Hin|Hout].
  - exists (nextEnd f held). repeat split; try lia.
    apply scanLoop_hit; assumption.
  - assert (Hfull : nextEnd f held = offset f + (bufSize - length held)).
    { unfold nextEnd, chunkEnd in *. lia. }
    rewrite scanLoop_miss; try assumption.
    + destruct (Nat.ltb_spec (nextEnd f held - (offset f - length held))
                             (length sep - 1)) as [Hs|Hs]; [lia|].
      destruct (IH (at_offset f (nextEnd f held))
                   (slice (contents f) (nextEnd f held - (length sep - 1))
                          (nextEnd f held)) i) as (e & He1 & He2 & He3 & Hrun).
      * apply carried_next; assumption.
      * cbn [at_offset offset contents]. rewrite slice_length by lia.
        split; [lia|]. split; [exact Ho|].
        intros j Hj Hlt. apply Hmin; lia.
      * cbn [at_offset offset]. lia.
      * exists e. cbn [at_offset contents] in *. repeat split; try lia.
        exact Hrun.
    + intros j Hj Hend Hoj. apply (Hmin j); [lia | lia | exact Hoj].
Qed.

(** With no occurrence ahead the scanner ends at the end of the file, or
    panics when its first window is shorter than [len(sep)-1]. *)
Lemma scanLoop_none (gas : nat) :
  forall (f : File) (held : list byte),
  carried f held ->
  noneFrom (contents f) sep (offset f - length held) ->
  length (contents f) - offset f < gas ->
  scanLoop gas f sep held =
  if length (contents f) <=? offset f then Fail EOF
  else if length (contents f) - (offset f - length held) <? length sep - 1
       then Panic "slice bounds out of range"
       else Fail EOF.
Proof.
  induction gas as [|gas IH]; intros f held Hcar Hnone Hgas; [lia|].
  pose proof Hcar as (Hle & Heq & Hsh).
  destruct (Nat.leb_spec (length (contents f)) (offset f)) as [Hc|Hc].
  { apply scanLoop_eof; assumption. }
  destruct (chunkEnd_bounds (contents f) (offset f) (bufSize - length held))
    as (Hc1 & Hc2 & Hc3); [lia | exact Hc |].
  fold (nextEnd f held) in *.
  rewrite scanLoop_miss; try assumption.
  - destruct (Nat.ltb_spec (nextEnd f held - (offset f - length held))
                           (length sep - 1)) as [Hs|Hs].
    + assert (Hall : nextEnd f held = length (contents f)).
      { unfold nextEnd, chunkEnd in *. lia. }
      rewrite Hall in Hs.
      destruct (Nat.ltb_spec (length (contents f) - (offset f - length held))
                             (length sep - 1)); [reflexivity | lia].
    + rewrite IH.
      * cbn [at_offset offset contents]. rewrite slice_length by lia.
        destruct (Nat.leb_spec (length (contents f)) (nextEnd f held));
          destruct (Nat.ltb_spec
                      (length (contents f) - (offset f - length held))
                      (length sep - 1));
          destruct (Nat.ltb_spec
                      (length (contents f)
                       - (nextEnd f held
                          - (nextEnd f held - (nextEnd f held - (length sep - 1)))))
                      (length sep - 1));
          try reflexivity; try lia.
        all: unfold nextEnd, chunkEnd in *; lia.
      * apply carried_next; assumption.
      * cbn [at_offset offset contents]. rewrite slice_length by lia.
        intros j Hj. apply Hnone. lia.
      * cbn [at_offset offset contents]. lia.
  - intros j Hj _. apply Hnone. exact Hj.
Qed.

End FileScan.

(** ** The signature *)

Lemma sepBytes_eq : sepBytes = [x50; x4b; x03; x04].
Proof. reflexivity. Qed.

Lemma sepBytes_length : length sepBytes = 4.
Proof. reflexivity. Qed.

Lemma sepBytes_pos : 0 < length sepBytes.
Proof. rewrite sepBytes_length. lia. Qed.

Lemma sepBytes_fits : length sepBytes <= bufSize.
Proof. rewrite sepBytes_length. unfold bufSize. lia. Qed.

Lemma occursAt_bytes (data : list byte) (i : nat) :
  occursAt data sepBytes i ->
  nth_error data i = Some x50 /\ nth_error data (i + 1) = Some x4b
  /\ nth_error data (i + 2) = Some x03 /\ nth_error data (i + 3) = Some x04.
Proof.
  unfold occursAt. intros Ho. apply hasPrefix_eq in Ho.
  rewrite sepBytes_length, sepBytes_eq in Ho.
  assert (Hs : skipn i data = [x50; x4b; x03; x04] ++ skipn 4 (skipn i data)).
  { rewrite <- Ho. symmetry. apply firstn_skipn. }
  replace (nth_error data i) with (nth_error data (i + 0))
    by (f_equal; lia).
  rewrite <- !nth_error_skipn, Hs.
  repeat split; reflexivity.
Qed.

(** The signature does not overlap itself: two occurrences are at least
    four bytes apart. *)
Lemma occursAt_apart (data : list byte) (i j : nat) :
  occursAt data sepBytes i -> occursAt data sepBytes j -> i < j -> i + 4 <= j.
Proof.
  intros Hi Hj Hlt.
  apply occursAt_bytes in Hi. apply occursAt_bytes in Hj.
  destruct Hi as (_ & Hi1 & Hi2 & Hi3). destruct Hj as (Hj0 & _).
  destruct (Nat.eq_dec j (i + 1)) as [->|N1]; [congruence|].
  destruct (Nat.eq_dec j (i + 2)) as [->|N2]; [congruence|].
  destruct (Nat.eq_dec j (i + 3)) as [->|N3]; [congruence|].
  lia.
Qed.

(** ** Seeking in a regular file *)

Lemma File_Seek_current (f : File) (off : Z) :
  (0 <= Z.of_nat (offset f) + off)%Z ->
  File_Seek f off SeekCurrent =
  ((Z.of_nat (offset f) + off)%Z, None,
   at_offset f (Z.to_nat (Z.of_nat (offset f) + off))).
Proof.
  intros Hoff. unfold File_Seek, at_offset.
  destruct (Z.ltb_spec (Z.of_nat (offset f) + off) 0) as [Hneg|_]; [lia|].
  reflexivity.
Qed.

Lemma File_Seek_tell (f : File) :
  File_Seek f 0 SeekCurrent = (Z.of_nat (offset f), None, f).
Proof.
  rewrite File_Seek_current by lia. rewrite Z.add_0_r, Nat2Z.id.
  destruct f; reflexivity.
Qed.

(** ** Decoded lengths *)

Lemma byteZ_nonneg (b : byte) : (0 <= byteZ b)%Z.
Proof. unfold byteZ. lia. Qed.

Lemma Uint16_nonneg (b : list byte) : (0 <= Uint16 b)%Z.
Proof.
  unfold Uint16. apply Z.lor_nonneg. split.
  - apply byteZ_nonneg.
  - apply Z.shiftl_nonneg, byteZ_nonneg.
Qed.

Lemma binaryRead16_nonneg (buf : list byte) :
  (0 <= fst (binaryRead 2 Uint16 buf))%Z.
Proof.
  unfold binaryRead. destruct (length buf <? 2); simpl.
  - lia.
  - apply Uint16_nonneg.
Qed.

Lemma readFields_lengths_nonneg (rest : list byte) :
  (0 <= namelen (readFields rest) /\ 0 <= extralen (readFields rest))%Z.
Proof.
  unfold readFields.
  repeat match goal with
         | |- context [binaryRead ?n ?d ?b] =>
             let E := fresh "E" in
             destruct (binaryRead n d b) eqn:E
         end.
  cbn [namelen extralen].
  match goal with
  | E1 : binaryRead 2 Uint16 ?b1 = (?nl, ?b2),
    E2 : binaryRead 2 Uint16 ?b2 = (?el, _) |- (0 <= ?nl /\ 0 <= ?el)%Z =>
      pose proof (binaryRead16_nonneg b1) as H1;
      pose proof (binaryRead16_nonneg b2) as H2;
      rewrite E1 in H1; rewrite E2 in H2; simpl in H1, H2; split; assumption
  end.
Qed.

(** The plausibility test of the source is the conjunction of the three
    bounds: the [uint16] sum cannot wrap once both lengths are at most 255. *)
Lemma implausible_spec (h : FileHeader) :
  (0 <= namelen h)%Z -> (0 <= extralen h)%Z ->
  implausible h = false <-> withinBounds h.
Proof.
  intros Hn He. unfold implausible, withinBounds, add16.
  rewrite !orb_false_iff. split.
  - intros [[H1 H2] H3].
    rewrite Z.gtb_ltb in H1, H2, H3.
    apply Z.ltb_ge in H1, H2, H3.
    rewrite Z.mod_small in H3 by lia. lia.
  - intros (H1 & H2 & H3). rewrite !Z.gtb_ltb.
    rewrite Z.mod_small by lia.
    repeat split; apply Z.ltb_ge; lia.
Qed.

(** ** Matching and looking ahead in a regular file *)

Lemma scanReader_sound (gas : nat) (f : File) (rest : list byte) (f1 : File) :
  scanReader gas f sepBytes = Done (rest, f1) ->
  exists i,
    firstFrom (contents f) sepBytes (offset f) i
    /\ i + 4 <= offset f1 /\ offset f1 <= length (contents f)
    /\ offset f1 <= i + bufSize
    /\ rest = slice (contents f) (i + 4) (offset f1)
    /\ f1 = at_offset f (offset f1).
Proof.
  unfold scanReader. intros Hrun.
  apply (scanLoop_sound sepBytes sepBytes_pos sepBytes_fits) in Hrun;
    [|apply carried_nil; [apply sepBytes_pos | apply sepBytes_fits]].
  destruct Hrun as (i & Hfirst & H1 & H2 & H3 & _ & H5 & H6).
  simpl length in Hfirst. rewrite Nat.sub_0_r in Hfirst.
  rewrite sepBytes_length in *. exists i.
  split; [exact Hfirst|]. repeat split; assumption.
Qed.

Lemma scanReader_found (gas : nat) (f : File) (i : nat) :
  firstFrom (contents f) sepBytes (offset f) i ->
  i + 4 - offset f < gas ->
  exists e,
    i + 4 <= e /\ e <= length (contents f) /\ e <= i + bufSize
    /\ scanReader gas f sepBytes =
       Done (slice (contents f) (i + 4) e, at_offset f e).
Proof.
  intros Hfirst Hgas. unfold scanReader.
  destruct (scanLoop_found sepBytes sepBytes_pos sepBytes_fits gas f [] i)
    as (e & H1 & H2 & H3 & Hrun).
  - apply carried_nil; [apply sepBytes_pos | apply sepBytes_fits].
  - simpl length. rewrite Nat.sub_0_r. exact Hfirst.
  - rewrite sepBytes_length. exact Hgas.
  - rewrite sepBytes_length in *. exists e. repeat split; assumption.
Qed.

Lemma scanReader_none (gas : nat) (f : File) :
  noneFrom (contents f) sepBytes (offset f) ->
  length (contents f) - offset f < gas ->
  scanReader gas f sepBytes =
  if length (contents f) <=? offset f then Fail EOF
  else if length (contents f) - offset f <? 3
       then Panic "slice bounds out of range"
       else Fail EOF.
Proof.
  intros Hnone Hgas. unfold scanReader.
  rewrite (scanLoop_none sepBytes sepBytes_pos sepBytes_fits gas f []).
  - simpl length. rewrite Nat.sub_0_r. reflexivity.
  - apply carried_nil; [apply sepBytes_pos | apply sepBytes_fits].
  - simpl length. rewrite Nat.sub_0_r. exact Hnone.
  - exact Hgas.
Qed.

Lemma topUp_enough (f1 : File) (rest : list byte) :
  headersize <= length rest -> topUp f1 rest = Done (rest, [], f1).
Proof.
  intros Hlen. unfold topUp.
  destruct (Nat.ltb_spec (length rest) headersize); [lia | reflexivity].
Qed.

Lemma topUp_read (f1 : File) (rest : list byte) :
  length rest < headersize ->
  offset f1 < length (contents f1) ->
  topUp f1 rest =
  Done (slice (contents f1) (offset f1)
              (chunkEnd (contents f1) (offset f1) headersize),
        repeat x00 (headersize
                    - (chunkEnd (contents f1) (offset f1) headersize - offset f1)),
        at_offset f1 (chunkEnd (contents f1) (offset f1) headersize)).
Proof.
  intros Hlen Hc. unfold topUp.
  destruct (Nat.ltb_spec (length rest) headersize); [|lia].
  cbn [Read File_ReadSeeker].
  rewrite File_Read_data by (unfold headersize; lia).
  destruct (chunkEnd_bounds (contents f1) (offset f1) headersize)
    as (Hc1 & Hc2 & Hc3); [unfold headersize; lia | exact Hc |].
  rewrite slice_length by lia. reflexivity.
Qed.

Lemma topUp_eof (f1 : File) (rest : list byte) :
  length rest < headersize ->
  length (contents f1) <= offset f1 ->
  topUp f1 rest = Fail EOF.
Proof.
  intros Hlen Hc. unfold topUp.
  destruct (Nat.ltb_spec (length rest) headersize); [|lia].
  cbn [Read File_ReadSeeker].
  rewrite File_Read_eof by (unfold headersize; lia || assumption).
  reflexivity.
Qed.

Lemma slice_app_l (s t : list byte) (a b : nat) :
  b <= length s -> slice (s ++ t) a b = slice s a b.
Proof.
  intros Hb. unfold slice. rewrite skipn_app, firstn_app, length_skipn.
  replace (b - a - (length s - a)) with 0 by lia.
  rewrite firstn_O, app_nil_r. reflexivity.
Qed.

Lemma firstn_repeat_min (x : byte) (n m : nat) :
  firstn n (repeat x m) = repeat x (Nat.min n m).
Proof.
  revert m. induction n as [|n IH]; intros [|m]; simpl; try reflexivity.
  rewrite IH. reflexivity.
Qed.

(** A lookahead of [k] bytes read at [c], with the zero bytes left behind it,
    is the same stretch of the zero-padded file. *)
Lemma slice_zero_padded (data : list byte) (c k : nat) :
  c <= length data ->
  slice data c (chunkEnd data c k)
  ++ repeat x00 (k - (chunkEnd data c k - c))
  = slice (data ++ repeat x00 k) c (c + k).
Proof.
  intros Hc. unfold slice, chunkEnd.
  rewrite skipn_app, firstn_app, length_skipn.
  replace (c - length data) with 0 by lia. rewrite skipn_O.
  replace (c + k - c) with k by lia.
  rewrite (firstn_min (skipn c data) k), length_skipn.
  replace (Nat.min (length data) (c + k) - c)
    with (Nat.min k (length data - c)) by lia.
  f_equal.
  rewrite firstn_repeat_min.
  f_equal. lia.
Qed.

Lemma candidate_sound (gas : nat) (f : File) (rest spare : list byte)
      (f2 : File) :
  candidate gas f = Done (rest, spare, f2) ->
  exists i e,
    firstFrom (contents f) sepBytes (offset f) i
    /\ i + 4 <= e /\ e <= length (contents f) /\ e <= i + bufSize
    /\ scanReader gas f sepBytes =
       Done (slice (contents f) (i + 4) e, at_offset f e)
    /\ ((headersize <= e - (i + 4)
         /\ rest = slice (contents f) (i + 4) e /\ spare = []
         /\ f2 = at_offset f e)
        \/ (e - (i + 4) < headersize /\ e < length (contents f)
            /\ rest = slice (contents f) e (chunkEnd (contents f) e headersize)
            /\ spare = repeat x00
                         (headersize - (chunkEnd (contents f) e headersize - e))
            /\ f2 = at_offset f (chunkEnd (contents f) e headersize))).
Proof.
  unfold candidate. intros Hrun.
  destruct (scanReader gas f sepBytes) as [[rest1 f1]|err|msg|] eqn:Hs;
    try discriminate.
  pose proof Hs as Hs'.
  apply scanReader_sound in Hs'.
  destruct Hs' as (i & Hfirst & H1 & H2 & H3 & Hrest & Hf1).
  exists i, (offset f1). rewrite <- Hrest, <- Hf1.
  split; [exact Hfirst|]. repeat split; try assumption.
  assert (Hlen : length rest1 = offset f1 - (i + 4)).
  { rewrite Hrest. apply slice_length; lia. }
  assert (Hdata : contents f1 = contents f) by (rewrite Hf1; reflexivity).
  destruct (Nat.le_gt_cases headersize (length rest1)) as [Hbig|Hsmall].
  - left. rewrite topUp_enough in Hrun by exact Hbig.
    injection Hrun as <- <- <-. repeat split; try assumption; lia.
  - right.
    destruct (Nat.le_gt_cases (length (contents f1)) (offset f1)) as [Hend|Hmore].
    + rewrite topUp_eof in Hrun by assumption. discriminate.
    + rewrite topUp_read in Hrun by assumption.
      injection Hrun as <- <- <-. rewrite Hdata in *.
      repeat split; try lia; try reflexivity.
      rewrite Hf1 at 1. reflexivity.
Qed.

(** Where the decoder's bytes come from.  [q] is the file offset of the
    first byte of [rest]: the end of the signature when the scanner's buffer
    held [headersize] bytes behind it, the start of the extra read
    otherwise. *)
Lemma candidate_region (gas : nat) (f : File) (rest spare : list byte)
      (f2 : File) :
  candidate gas f = Done (rest, spare, f2) ->
  exists i q,
    firstFrom (contents f) sepBytes (offset f) i
    /\ i + 4 <= q /\ q < i + 4 + headersize
    /\ (forall rest1 f1, scanReader gas f sepBytes = Done (rest1, f1) ->
                         headersize <= length rest1 -> q = i + 4)
    /\ q + length rest = offset f2
    /\ offset f2 <= length (contents f)
    /\ f2 = at_offset f (offset f2)
    /\ rest = slice (contents f) q (offset f2)
    /\ (forall a b, a <= b -> b <= headersize ->
                    slice (rest ++ spare) a b
                    = slice (padded (contents f)) (q + a) (q + b)).
Proof.
  intros Hrun. apply candidate_sound in Hrun.
  destruct Hrun as (i & e & Hfirst & H1 & H2 & H3 & Hscan & Hcase).
  assert (Hh : 0 < headersize) by (unfold headersize; lia).
  exists i.
  destruct Hcase as [(Hbig & -> & -> & ->)|(Hsmall & Hmore & -> & -> & ->)].
  - exists (i + 4). cbn [at_offset offset].
    rewrite slice_length by lia.
    split; [exact Hfirst|]. repeat split; try lia; try reflexivity.
    intros a b Hab Hb. rewrite app_nil_r, slice_slice by lia.
    unfold padded. rewrite slice_app_l by lia. reflexivity.
  - destruct (chunkEnd_bounds (contents f) e headersize)
      as (Hc1 & Hc2 & Hc3); [unfold headersize; lia | exact Hmore |].
    exists e. cbn [at_offset offset].
    rewrite slice_length by lia.
    split; [exact Hfirst|]. repeat split; try lia; try reflexivity.
    + intros rest1 f1 Hscan' Hlen. rewrite Hscan in Hscan'.
      injection Hscan' as <- <-. rewrite slice_length in Hlen by lia. lia.
    + intros a b Hab Hb. rewrite slice_zero_padded by lia.
      fold (padded (contents f)). apply slice_slice. lia.
Qed.

(** One iteration of [nextFileHeader] on a regular file, once a candidate is
    there: both seeks succeed, and they put the cursor at the start of the
    decoded bytes, or [26 + namelen + extralen] bytes behind it. *)
Lemma attempt_File (gas : nat) (f : File) (rest spare : list byte) (f2 : File) :
  candidate gas f = Done (rest, spare, f2) ->
  attempt gas f =
  if implausible (readFields rest)
  then Done (None, at_offset f (offset f2 - length rest))
  else Done (Some (withNameExtra (readFields rest) (rest ++ spare)),
             at_offset f (offset f2 - length rest + 26
                          + Z.to_nat (namelen (readFields rest))
                          + Z.to_nat (extralen (readFields rest)))).
Proof.
  intros Hrun. unfold attempt. rewrite Hrun.
  destruct (candidate_region _ _ _ _ _ Hrun)
    as (i & q & _ & _ & _ & _ & Hq & _ & Hf2 & _).
  destruct (readFields_lengths_nonneg rest) as [Hn He].
  assert (Hat : forall x, at_offset f2 x = at_offset f x).
  { intros x. rewrite Hf2. reflexivity. }
  destruct (implausible (readFields rest)); cbn [Seek File_ReadSeeker].
  - rewrite File_Seek_current by lia.
    rewrite Hat. do 3 f_equal. lia.
  - cbn [withNameExtra namelen extralen].
    rewrite File_Seek_current by lia.
    rewrite Hat. do 3 f_equal. lia.
Qed.

(** ** One iteration of the decoder on a regular file *)

Lemma attempt_Done_inv {R : Type} `{ReadSeeker R} (gas : nat) (r r' : R)
      (o : option FileHeader) :
  attempt gas r = Done (o, r') ->
  exists rest spare r2, candidate gas r = Done (rest, spare, r2).
Proof.
  unfold attempt.
  destruct (candidate gas r) as [[[rest spare] r2]|e|m|]; try discriminate.
  intros _. exists rest, spare, r2. reflexivity.
Qed.

(** On a rejected candidate the error of the rewinding [Seek] is dropped,
    whatever the reader. *)
Lemma attempt_rejected {R : Type} `{ReadSeeker R} (gas : nat) (r r2 : R)
      (rest spare : list byte) :
  candidate gas r = Done (rest, spare, r2) ->
  implausible (readFields rest) = true ->
  attempt gas r =
  Done (None, snd (Seek r2 (- Z.of_nat (length rest))%Z SeekCurrent)).
Proof.
  intros Hc Hi. unfold attempt. rewrite Hc, Hi.
  destruct (Seek r2 (- Z.of_nat (length rest))%Z SeekCurrent) as [[pos err] r3].
  reflexivity.
Qed.

Lemma withinBounds_readFields (rest : list byte) :
  implausible (readFields rest) = false <-> withinBounds (readFields rest).
Proof.
  destruct (readFields_lengths_nonneg rest) as [Hn He].
  apply implausible_spec; assumption.
Qed.

(** A rejected candidate leaves the cursor of a file behind the signature
    that was matched; the file itself is untouched. *)
Lemma attempt_rejected_File (gas : nat) (f f' : File) :
  attempt gas f = Done (None, f') ->
  f' = at_offset f (offset f') /\ offset f + 4 <= offset f'
  /\ offset f' <= length (contents f).
Proof.
  intros Hrun.
  destruct (attempt_Done_inv _ _ _ _ Hrun) as (rest & spare & f2 & Hc).
  rewrite (attempt_File _ _ _ _ _ Hc) in Hrun.
  destruct (candidate_region _ _ _ _ _ Hc)
    as (i & q & (Hi & _) & Hq1 & _ & _ & Hq2 & Hq3 & _).
  destruct (implausible (readFields rest)); [|discriminate].
  injection Hrun as <-. cbn [at_offset offset]. split; [reflexivity | lia].
Qed.

(** An accepted candidate: where its bytes lie in the file, and where the
    cursor is left. *)
Lemma attempt_accepted_File (gas : nat) (f f' : File) (h : FileHeader) :
  attempt gas f = Done (Some h, f') ->
  exists i q,
    firstFrom (contents f) sepBytes (offset f) i
    /\ i + 4 <= q /\ q < i + 4 + headersize
    /\ (forall rest1 f1, scanReader gas f sepBytes = Done (rest1, f1) ->
                         headersize <= length rest1 -> q = i + 4)
    /\ withinBounds h /\ (0 <= namelen h)%Z /\ (0 <= extralen h)%Z
    /\ name h = string_of_list_byte
                  (slice (padded (contents f)) (q + 26)
                         (q + 26 + Z.to_nat (namelen h)))
    /\ extra h = slice (padded (contents f))
                       (q + 26 + Z.to_nat (namelen h))
                       (q + 26 + Z.to_nat (namelen h) + Z.to_nat (extralen h))
    /\ f' = at_offset f (q + 26 + Z.to_nat (namelen h) + Z.to_nat (extralen h)).
Proof.
  intros Hrun.
  destruct (attempt_Done_inv _ _ _ _ Hrun) as (rest & spare & f2 & Hc).
  rewrite (attempt_File _ _ _ _ _ Hc) in Hrun.
  destruct (candidate_region _ _ _ _ _ Hc)
    as (i & q & Hfirst & Hq1 & Hq2 & Hq3 & Hq4 & Hq5 & Hf2 & Hrest & Hback).
  destruct (readFields_lengths_nonneg rest) as [Hn He].
  destruct (implausible (readFields rest)) eqn:Himp; [discriminate|].
  apply withinBounds_readFields in Himp.
  pose proof Himp as (B1 & B2 & B3).
  injection Hrun as <- <-.
  exists i, q. cbn [withNameExtra namelen extralen name extra].
  split; [exact Hfirst|]. split; [exact Hq1|]. split; [exact Hq2|].
  split; [exact Hq3|]. split; [exact Himp|]. split; [exact Hn|].
  split; [exact He|].
  assert (Ha : Z.to_nat (add16 26 (namelen (readFields rest)))
               = 26 + Z.to_nat (namelen (readFields rest))).
  { unfold add16. rewrite Z.mod_small by lia. lia. }
  assert (Hb : Z.to_nat (add16 (add16 26 (namelen (readFields rest)))
                               (extralen (readFields rest)))
               = 26 + Z.to_nat (namelen (readFields rest))
                 + Z.to_nat (extralen (readFields rest))).
  { unfold add16. rewrite (Z.mod_small (26 + _)) by lia.
    rewrite Z.mod_small by lia. lia. }
  rewrite Ha, Hb.
  assert (Hh : headersize = 285) by reflexivity.
  rewrite !Hback by lia.
  rewrite !Nat.add_assoc.
  repeat split. f_equal. lia.
Qed.

(** ** Rejected candidates *)

(** C1, as the code has it.  When a matched signature has at least
    [headersize] buffered bytes behind it and the lengths decoded from them
    are rejected, the cursor is put immediately behind the four signature
    bytes (signature start + 4, not + 1) and the file is otherwise untouched;
    no occurrence of the signature can start between the rejected start and
    that position, and the next scan returns the first occurrence that starts
    behind the rejected one. *)
Theorem rejected_candidate_resumes_behind_signature
        (gas : nat) (f : File) (rest : list byte) (f1 : File) :
  scanReader gas f sepBytes = Done (rest, f1) ->
  headersize <= length rest ->
  implausible (readFields rest) = true ->
  exists i,
    firstFrom (contents f) sepBytes (offset f) i
    /\ attempt gas f = Done (None, at_offset f (i + 4))
    /\ (forall j, i < j -> occursAt (contents f) sepBytes j -> i + 4 <= j)
    /\ (forall j gas',
           firstFrom (contents f) sepBytes (i + 1) j ->
           length (contents f) < gas' ->
           exists e,
             j + 4 <= e
             /\ scanReader gas' (at_offset f (i + 4)) sepBytes
                = Done (slice (contents f) (j + 4) e, at_offset f e)).
Proof.
  intros Hscan Hlen Himp.
  destruct (scanReader_sound _ _ _ _ Hscan)
    as (i & Hfirst & H1 & H2 & H3 & Hrest & Hf1).
  assert (Hc : candidate gas f = Done (rest, [], f1)).
  { unfold candidate. rewrite Hscan. apply topUp_enough. exact Hlen. }
  assert (Hl : length rest = offset f1 - (i + 4)).
  { rewrite Hrest. apply slice_length; lia. }
  pose proof Hfirst as (Hi & Ho & Hmin).
  exists i. split; [exact Hfirst|]. split; [|split].
  - rewrite (attempt_File _ _ _ _ _ Hc), Himp. do 3 f_equal. lia.
  - intros j Hj Hoj. apply (occursAt_apart (contents f)); assumption.
  - intros j gas' (Hj & Hoj & Hjmin) Hgas.
    pose proof (occursAt_bound _ _ _ sepBytes_pos Hoj) as Hb.
    rewrite sepBytes_length in Hb.
    assert (Hj4 : i + 4 <= j)
      by (apply (occursAt_apart (contents f)); [assumption | assumption | lia]).
    destruct (scanReader_found gas' (at_offset f (i + 4)) j)
      as (e & He1 & He2 & He3 & Hrun).
    + cbn [at_offset contents offset]. split; [exact Hj4|].
      split; [exact Hoj|]. intros k Hk Hlt. apply Hjmin; lia.
    + cbn [at_offset offset]. lia.
    + exists e. split; [exact He1|]. exact Hrun.
Qed.

Lemma rejected_candidate_resumes_behind_signature_witness :
  exists i,
    firstFrom bogusStream sepBytes 0 i
    /\ attempt 2 (mkFile "a.zip" bogusStream 0)
       = Done (None, at_offset (mkFile "a.zip" bogusStream 0) (i + 4))
    /\ (forall j, i < j -> occursAt bogusStream sepBytes j -> i + 4 <= j)
    /\ (forall j gas',
           firstFrom bogusStream sepBytes (i + 1) j ->
           length bogusStream < gas' ->
           exists e,
             j + 4 <= e
             /\ scanReader gas' (at_offset (mkFile "a.zip" bogusStream 0) (i + 4))
                           sepBytes
                = Done (slice bogusStream (j + 4) e,
                        at_offset (mkFile "a.zip" bogusStream 0) e)).
Proof.
  apply (rejected_candidate_resumes_behind_signature
           2 (mkFile "a.zip" bogusStream 0) (repeat xff 300)
           (mkFile "a.zip" bogusStream 304)).
  - vm_compute. reflexivity.
  - apply Nat.leb_le. vm_compute. reflexivity.
  - vm_compute. reflexivity.
Defined.

(** C1 as stated fails: the signature of [bogusStream] starts at offset 0 and
    its candidate is rejected, yet the search resumes at offset 4, not at
    offset 1. *)
Lemma rejected_candidate_not_one_past_start :
  firstFrom bogusStream sepBytes 0 0
  /\ implausible (readFields (skipn 4 bogusStream)) = true
  /\ exists f',
       attempt 2 (mkFile "a.zip" bogusStream 0) = Done (None, f')
       /\ offset f' = 4 /\ offset f' <> 0 + 1.
Proof.
  split; [|split].
  - apply Index_Some. vm_compute. reflexivity.
  - vm_compute. reflexivity.
  - exists (mkFile "a.zip" bogusStream 4). split; [|split].
    + vm_compute. reflexivity.
    + reflexivity.
    + cbn [offset]. lia.
Qed.

(** ** The loop of the decoder on a regular file *)

Lemma at_offset_self (f : File) : f = at_offset f (offset f).
Proof. destruct f; reflexivity. Qed.

Lemma nextLoop_File_inv (gas fuel : nat) :
  forall (f f' : File) (h : FileHeader),
  nextLoop gas fuel f = Done (h, f') ->
  exists c, offset f <= c /\ attempt gas (at_offset f c) = Done (Some h, f').
Proof.
  induction fuel as [|fuel IH]; intros f f' h Hrun; [discriminate|].
  cbn [nextLoop] in Hrun.
  destruct (attempt gas f) as [[[h1|] f1]|e|m|] eqn:Ha; try discriminate.
  - injection Hrun as <- <-. exists (offset f). split; [lia|].
    rewrite <- at_offset_self. exact Ha.
  - apply attempt_rejected_File in Ha. destruct Ha as (Hf1 & Hlt & _).
    apply IH in Hrun. destruct Hrun as (c & Hc & Hrun).
    exists c. split; [lia|]. rewrite Hf1 in Hrun. exact Hrun.
Qed.

(** ** A signature across the end of a read *)

Lemma boundary_0 (p : nat) : boundary p 0 = p + bufSize.
Proof. unfold boundary. lia. Qed.

Lemma boundary_S (p k : nat) :
  boundary p (S k) = boundary p k + (bufSize - 3).
Proof. unfold boundary. lia. Qed.

Lemma bufSize_gt : 8 <= bufSize.
Proof. unfold bufSize. lia. Qed.

(** A read that fills the buffer without completing the first occurrence:
    the loop goes on with the last three bytes held. *)
Lemma scanLoop_full_miss (gas : nat) (f : File) (held : list byte) (i : nat) :
  carried sepBytes f held ->
  firstFrom (contents f) sepBytes (offset f - length held) i ->
  offset f + (bufSize - length held) < i + 4 ->
  scanLoop (S gas) f sepBytes held =
  scanLoop gas (at_offset f (offset f + (bufSize - length held))) sepBytes
    (slice (contents f) (offset f + (bufSize - length held) - 3)
           (offset f + (bufSize - length held))).
Proof.
  intros Hcar (Hi & Ho & Hmin) Hfar.
  pose proof Hcar as (Hle & Heq & Hsh).
  pose proof (occursAt_bound _ _ _ sepBytes_pos Ho) as Hb.
  pose proof bufSize_gt as Hbuf.
  rewrite sepBytes_length in *.
  assert (Hend : nextEnd f held = offset f + (bufSize - length held)).
  { unfold nextEnd, chunkEnd. lia. }
  rewrite (scanLoop_miss sepBytes sepBytes_pos sepBytes_fits gas f held Hcar).
  - rewrite Hend, sepBytes_length.
    destruct (Nat.ltb_spec
                (offset f + (bufSize - length held) - (offset f - length held))
                (4 - 1)) as [Hs|Hs]; [lia | reflexivity].
  - lia.
  - rewrite Hend, sepBytes_length. intros j Hj Hjend Hoj.
    apply (Hmin j); [lia | lia | exact Hoj].
Qed.

(** The first [k+1] reads of a scan end at [boundary p k] when the first
    occurrence is not complete by then. *)
Lemma scanLoop_skip_reads (k : nat) :
  forall (gas : nat) (f : File) (i : nat),
  firstFrom (contents f) sepBytes (offset f) i ->
  boundary (offset f) k < i + 4 ->
  scanLoop (S k + gas) f sepBytes [] =
  scanLoop gas (at_offset f (boundary (offset f) k)) sepBytes
    (slice (contents f) (boundary (offset f) k - 3) (boundary (offset f) k)).
Proof.
  pose proof bufSize_gt as Hbuf.
  induction k as [|k IH]; intros gas f i Hfirst Hfar.
  - rewrite boundary_0 in *. cbn [Nat.add].
    rewrite (scanLoop_full_miss gas f [] i).
    + simpl length. rewrite Nat.sub_0_r. reflexivity.
    + apply carried_nil; [apply sepBytes_pos | apply sepBytes_fits].
    + simpl length. rewrite Nat.sub_0_r. exact Hfirst.
    + simpl length. lia.
  - rewrite boundary_S in *.
    replace (S (S k) + gas) with (S k + S gas) by lia.
    rewrite (IH (S gas) f i Hfirst) by lia.
    pose proof Hfirst as (Hi & Ho & Hmin).
    pose proof (occursAt_bound _ _ _ sepBytes_pos Ho) as Hb.
    rewrite sepBytes_length in Hb.
    assert (Hk : offset f + bufSize <= boundary (offset f) k)
      by (unfold boundary; lia).
    assert (Hl : length (slice (contents f) (boundary (offset f) k - 3)
                               (boundary (offset f) k)) = 3)
      by (rewrite slice_length; lia).
    rewrite (scanLoop_full_miss gas _ _ i).
    + cbn [at_offset offset contents]. rewrite Hl. reflexivity.
    + unfold carried. cbn [at_offset offset contents].
      rewrite Hl, sepBytes_length. repeat split; lia.
    + cbn [at_offset offset contents]. rewrite Hl.
      split; [lia|]. split; [exact Ho|].
      intros j Hj Hlt. apply Hmin; lia.
    + cbn [at_offset offset contents]. rewrite Hl. lia.
Qed.

(** C2.  Let the first signature at or after the cursor start at [i] and lie
    across the end [boundary p k] of a read of the scanner.  Then
    [scanReader] returns it, once, from the next read: the slice returned
    holds the bytes from [i + 4], immediately behind the match, to the end of
    that read, where the cursor stands; so the cursor less the length of the
    slice is [i + 4]. *)
Theorem scanReader_finds_straddling_signature
        (gas : nat) (f : File) (i k : nat) :
  firstFrom (contents f) sepBytes (offset f) i ->
  i < boundary (offset f) k ->
  boundary (offset f) k < i + 4 ->
  k + 2 <= gas ->
  let e := chunkEnd (contents f) (boundary (offset f) k) (bufSize - 3) in
  scanReader gas f sepBytes
  = Done (slice (contents f) (i + 4) e, at_offset f e)
  /\ i + 4 <= e
  /\ e - length (slice (contents f) (i + 4) e) = i + 4.
Proof.
  intros Hfirst Hlo Hhi Hgas e.
  pose proof bufSize_gt as Hbuf.
  pose proof Hfirst as (Hi & Ho & Hmin).
  pose proof (occursAt_bound _ _ _ sepBytes_pos Ho) as Hb.
  rewrite sepBytes_length in Hb.
  assert (Hk : offset f + bufSize <= boundary (offset f) k)
    by (unfold boundary; lia).
  assert (Hl : length (slice (contents f) (boundary (offset f) k - 3)
                             (boundary (offset f) k)) = 3)
    by (rewrite slice_length; lia).
  assert (He : i + 4 <= e /\ e <= length (contents f))
    by (unfold e, chunkEnd; lia).
  split; [|split; [lia | rewrite slice_length; lia]].
  unfold scanReader.
  replace gas with (S k + S (gas - k - 2)) by lia.
  rewrite (scanLoop_skip_reads k _ f i Hfirst Hhi).
  rewrite (scanLoop_hit sepBytes sepBytes_pos sepBytes_fits _ _ _ i).
  - unfold nextEnd. cbn [at_offset offset contents].
    rewrite Hl, sepBytes_length. reflexivity.
  - unfold carried. cbn [at_offset offset contents].
    rewrite Hl, sepBytes_length. repeat split; lia.
  - cbn [at_offset offset contents]. rewrite Hl.
    split; [lia|]. split; [exact Ho|].
    intros j Hj Hlt. apply Hmin; lia.
  - unfold nextEnd. cbn [at_offset offset contents].
    rewrite Hl, sepBytes_length. fold e. lia.
Qed.

Lemma scanReader_finds_straddling_signature_witness :
  let f := mkFile "a.zip" splitArchive 0 in
  let e := chunkEnd splitArchive (boundary 0 0) (bufSize - 3) in
  scanReader 2 f sepBytes = Done (slice splitArchive (4094 + 4) e, at_offset f e)
  /\ 4094 + 4 <= e
  /\ e - length (slice splitArchive (4094 + 4) e) = 4094 + 4.
Proof.
  apply (scanReader_finds_straddling_signature
           2 (mkFile "a.zip" splitArchive 0) 4094 0).
  - apply Index_Some. vm_compute. reflexivity.
  - apply Nat.ltb_lt. vm_compute. reflexivity.
  - apply Nat.ltb_lt. vm_compute. reflexivity.
  - apply Nat.leb_le. vm_compute. reflexivity.
Defined.

(** ** The lookahead *)

Lemma nth_slice (data : list byte) (q e j : nat) (d : byte) :
  j < e - q -> nth j (slice data q e) d = nth (q + j) data d.
Proof.
  intros Hj. unfold slice. rewrite nth_firstn, nth_skipn.
  destruct (Nat.ltb_spec j (e - q)); [reflexivity | lia].
Qed.

Lemma Uint16_slice (data : list byte) (q e k : nat) :
  k + 2 <= e - q ->
  Uint16 (skipn k (slice data q e)) = Uint16 (skipn (q + k) data).
Proof.
  intros Hk. unfold Uint16.
  rewrite !nth_skipn, !nth_slice by lia.
  rewrite !Nat.add_assoc. reflexivity.
Qed.

Lemma Uint32_slice (data : list byte) (q e k : nat) :
  k + 4 <= e - q ->
  Uint32 (skipn k (slice data q e)) = Uint32 (skipn (q + k) data).
Proof.
  intros Hk. unfold Uint32.
  rewrite !nth_skipn, !nth_slice by lia.
  rewrite !Nat.add_assoc. reflexivity.
Qed.

(** With 26 bytes in the buffer the ten reads decode the fixed layout. *)
Lemma readFields_layout (rest : list byte) :
  26 <= length rest -> readFields rest = fieldsAt rest 0.
Proof.
  intros Hlen.
  do 26 (destruct rest as [|? rest]; [simpl in Hlen; lia|]).
  reflexivity.
Qed.

Lemma fieldsAt_slice (data : list byte) (q e : nat) :
  26 <= e - q -> fieldsAt (slice data q e) 0 = fieldsAt data q.
Proof.
  intros He. unfold fieldsAt. cbn [Nat.add].
  rewrite !Uint16_slice, !Uint32_slice by lia.
  rewrite Nat.add_0_r. reflexivity.
Qed.

(** C6, as the code has it.  The threshold is [headersize = 30 + 255 = 285]
    bytes behind the signature in the scanner's buffer.  With that many
    there, no further read is made and the fixed fields are decoded from the
    26 bytes immediately behind the signature.  With fewer, one [Read] of up
    to 285 bytes is made at the cursor of the same file, and its failure at
    the end of the file is returned. *)
Theorem lookahead_threshold_is_headersize
        (gas : nat) (f : File) (rest : list byte) (f1 : File) :
  scanReader gas f sepBytes = Done (rest, f1) ->
  headersize = 30 + 255
  /\ (headersize <= length rest ->
      candidate gas f = Done (rest, [], f1)
      /\ exists i, firstFrom (contents f) sepBytes (offset f) i
                   /\ readFields rest = fieldsAt (contents f) (i + 4))
  /\ (length rest < headersize ->
      offset f1 < length (contents f) ->
      exists got,
        Read f1 headersize = (got, None, at_offset f (offset f1 + length got))
        /\ 0 < length got /\ length got <= headersize
        /\ got = slice (contents f) (offset f1) (offset f1 + length got)
        /\ candidate gas f
           = Done (got, repeat x00 (headersize - length got),
                   at_offset f (offset f1 + length got)))
  /\ (length rest < headersize ->
      length (contents f) <= offset f1 ->
      candidate gas f = Fail EOF).
Proof.
  intros Hscan.
  destruct (scanReader_sound _ _ _ _ Hscan)
    as (i & Hfirst & H1 & H2 & H3 & Hrest & Hf1).
  assert (Hdata : contents f1 = contents f) by (rewrite Hf1; reflexivity).
  assert (Hat : forall x, at_offset f1 x = at_offset f x).
  { intros x. rewrite Hf1. reflexivity. }
  assert (Hh : headersize = 285) by reflexivity.
  split; [reflexivity|]. split; [|split].
  - intros Hlen. split.
    + unfold candidate. rewrite Hscan. apply topUp_enough. exact Hlen.
    + exists i. split; [exact Hfirst|].
      assert (Hl : length rest = offset f1 - (i + 4)).
      { rewrite Hrest. apply slice_length; lia. }
      rewrite readFields_layout by lia.
      rewrite Hrest. apply fieldsAt_slice. lia.
  - intros Hlen Hmore.
    destruct (chunkEnd_bounds (contents f1) (offset f1) headersize)
      as (Hc1 & Hc2 & Hc3); [lia | rewrite Hdata; exact Hmore |].
    exists (slice (contents f) (offset f1)
                  (chunkEnd (contents f) (offset f1) headersize)).
    rewrite Hdata in *.
    rewrite slice_length by lia.
    replace (offset f1 + (chunkEnd (contents f) (offset f1) headersize - offset f1))
      with (chunkEnd (contents f) (offset f1) headersize) by lia.
    split; [|split; [lia | split; [lia | split; [reflexivity|]]]].
    + cbn [Read File_ReadSeeker]. rewrite File_Read_data by (rewrite ?Hdata; lia).
      rewrite Hdata, Hat. reflexivity.
    + unfold candidate. rewrite Hscan.
      rewrite topUp_read by (rewrite ?Hdata; assumption).
      rewrite Hdata, Hat. reflexivity.
  - intros Hlen Hend. unfold candidate. rewrite Hscan.
    apply topUp_eof; [exact Hlen | rewrite Hdata; exact Hend].
Qed.

Lemma lookahead_threshold_is_headersize_witness :
  let f := mkFile "a.zip" shortLookahead 0 in
  let rest := repeat x00 300 in
  let f1 := mkFile "a.zip" shortLookahead 4096 in
  headersize = 30 + 255
  /\ (headersize <= length rest ->
      candidate 2 f = Done (rest, [], f1)
      /\ exists i, firstFrom shortLookahead sepBytes 0 i
                   /\ readFields rest = fieldsAt shortLookahead (i + 4))
  /\ (length rest < headersize ->
      4096 < length shortLookahead ->
      exists got,
        Read f1 headersize = (got, None, at_offset f (4096 + length got))
        /\ 0 < length got /\ length got <= headersize
        /\ got = slice shortLookahead 4096 (4096 + length got)
        /\ candidate 2 f
           = Done (got, repeat x00 (headersize - length got),
                   at_offset f (4096 + length got)))
  /\ (length rest < headersize ->
      length shortLookahead <= 4096 ->
      candidate 2 f = Fail EOF).
Proof.
  apply (lookahead_threshold_is_headersize
           2 (mkFile "a.zip" shortLookahead 0) (repeat x00 300)
           (mkFile "a.zip" shortLookahead 4096)).
  vm_compute. reflexivity.
Defined.

(** C6 as stated fails: in [shortLookahead] the signature at 3792 has 300
    bytes behind it in the scanner's buffer and 1000 more in the file, yet no
    further read is made: the decoder works on 300 bytes, fewer than
    26 + 255 + 255. *)
Lemma lookahead_shorter_than_536 :
  firstFrom shortLookahead sepBytes 0 3792
  /\ exists rest f2,
       candidate 2 (mkFile "a.zip" shortLookahead 0) = Done (rest, [], f2)
       /\ length rest = 300 /\ length rest < 26 + 255 + 255
       /\ offset f2 = 4096 /\ offset f2 + 1000 = length shortLookahead.
Proof.
  split.
  - apply Index_Some. vm_compute. reflexivity.
  - exists (repeat x00 300), (mkFile "a.zip" shortLookahead 4096).
    split; [vm_compute; reflexivity|].
    split; [reflexivity|]. split; [apply Nat.ltb_lt; reflexivity|].
    split; [reflexivity | vm_compute; reflexivity].
Qed.

(** ** Errors *)

(** C7 at a failing input.  [bogusStream] arrives through a named pipe.  The
    candidate is rejected, the rewinding [Seek] fails with "illegal seek",
    the iteration nevertheless ends in [continue], and [nextFileHeader] ends
    later with [EOF] from the next read: the error of the seek never reaches
    the caller. *)
Theorem rewind_seek_failure_is_dropped :
  let p := mkFifo "pipe" bogusStream in
  let drained := mkFifo "pipe" [] in
  candidate 2 p = Done (repeat xff 300, [], drained)
  /\ implausible (readFields (repeat xff 300)) = true
  /\ Seek drained (- Z.of_nat 300)%Z SeekCurrent
     = (0%Z, Some (PathError "seek" "pipe" "illegal seek"), drained)
  /\ attempt 2 p = Done (None, drained)
  /\ nextFileHeader 2 p = Fail EOF.
Proof.
  cbv zeta. repeat split; vm_compute; reflexivity.
Qed.

(** The seek of the acceptance path, by contrast, is checked. *)
Lemma accept_seek_failure_is_returned :
  nextFileHeader 2 (mkFifo "pipe" paddedArchive)
  = Fail (PathError "seek" "pipe" "illegal seek").
Proof. vm_compute. reflexivity. Qed.

(** A failed first read of a scan ends the driver's loop with that error and
    without further output, whatever the reader and the error. *)
Lemma searchLoop_read_failure {R : Type} `{ReadSeeker R}
      (gas fuel : nat) (r r' : R) (got : list byte) (e : error) (out : string) :
  Read r bufSize = (got, Some e, r') ->
  searchLoop (S gas) (S fuel) r out = (out, Fail e).
Proof.
  intros Hread. cbn [searchLoop].
  unfold nextFileHeader. cbn [nextLoop].
  unfold attempt, candidate, scanReader. cbn [scanLoop].
  simpl length. rewrite Nat.sub_0_r, Hread. reflexivity.
Qed.

Lemma main_end_of_stream_exits_zero :
  main 2 (oneFile archiveA) ["hidden_zip"; "a.zip"]%string
  = (("EOF" ++ newline)%string, Exit 0).
Proof. vm_compute. reflexivity. Qed.

(** C10.  Started with the program name alone, [main] prints the usage
    message and then evaluates [os.Args[1]]: the index is out of range, the
    process panics, and no file is ever opened. *)
Theorem main_without_argument_panics
        (gas : nat) (fs : filesystem) (prog : string) :
  main gas fs [prog]
  = (usage prog, Abort "index out of range [1] with length 1").
Proof. reflexivity. Qed.

(** ** Headers at the end of a read *)

(** C4 at failing inputs.  In [lateArchive] the header of [a.txt] starts at
    offset 4000, 96 bytes before the end of the first read.  The 92 bytes
    behind the signature are dropped when the lookahead is topped up, the
    fields are decoded from offset 4096, and a header with an empty name and
    size 47 is reported instead of [headerA].  In [archiveA] itself the
    topping-up read meets the end of the file and the header is lost. *)
Theorem header_near_end_of_read_is_not_reproduced :
  firstFrom lateArchive sepBytes 0 4000
  /\ slice lateArchive 4000 (4000 + 35) = localHeader headerA
  /\ (exists h,
        nextFileHeader 2 (mkFile "a.zip" lateArchive 0)
        = Done (h, mkFile "a.zip" lateArchive 4122)
        /\ name h = EmptyString /\ size h = 47%Z /\ version h = 29816%Z
        /\ h <> headerA)
  /\ main 3 (oneFile lateArchive) ["hidden_zip"; "a.zip"]%string
     = ((" at 4122 len 47" ++ newline ++ "EOF" ++ newline)%string, Exit 0)
  /\ firstFrom archiveA sepBytes 0 0
  /\ slice archiveA 0 35 = localHeader headerA
  /\ nextFileHeader 2 (mkFile "a.zip" archiveA 0) = Fail EOF.
Proof.
  split; [apply Index_Some; vm_compute; reflexivity|].
  split; [vm_compute; reflexivity|].
  split.
  { eexists. split; [vm_compute; reflexivity|].
    repeat split; try reflexivity. discriminate. }
  split; [vm_compute; reflexivity|].
  split; [apply Index_Some; vm_compute; reflexivity|].
  split; vm_compute; reflexivity.
Qed.

(** The same defect on the rejection path: the candidate at 4000 is decoded
    from offset 4096 and rejected, the cursor is rewound to 4096 only, and
    the header of [a.txt] at 4040 is never looked at. *)
Lemma rejection_after_short_lookahead_skips_header :
  firstFrom hiddenBehindBogus sepBytes 0 4000
  /\ firstFrom hiddenBehindBogus sepBytes 4001 4040
  /\ slice hiddenBehindBogus 4040 4075 = localHeader headerA
  /\ attempt 2 (mkFile "a.zip" hiddenBehindBogus 0)
     = Done (None, mkFile "a.zip" hiddenBehindBogus 4096)
  /\ main 3 (oneFile hiddenBehindBogus) ["hidden_zip"; "a.zip"]%string
     = (("EOF" ++ newline)%string, Exit 0).
Proof.
  split; [apply (firstFrom_Index _ _ 0 4000); vm_compute; reflexivity|].
  split; [apply (firstFrom_Index _ _ 4001 39); vm_compute; reflexivity|].
  repeat split; vm_compute; reflexivity.
Qed.

(** ** The report *)

Lemma append_assoc (a b c : string) :
  ((a ++ b) ++ c = a ++ (b ++ c))%string.
Proof.
  induction a as [|x a IH]; simpl; [reflexivity|]. rewrite IH. reflexivity.
Qed.

Lemma append_nil_r (a : string) : (a ++ EmptyString = a)%string.
Proof.
  induction a as [|x a IH]; simpl; [reflexivity|]. rewrite IH. reflexivity.
Qed.

(** The driver's loop only appends, one line for each header obtained. *)
Lemma searchLoop_output {R : Type} `{ReadSeeker R} (gas fuel : nat) :
  forall (r : R) (out : string),
  fst (searchLoop gas fuel r out)
  = (out ++ reportLines (foundHeaders gas fuel r))%string.
Proof.
  induction fuel as [|fuel IH]; intros r out; cbn [searchLoop foundHeaders].
  - cbn [fst reportLines]. rewrite append_nil_r. reflexivity.
  - destruct (nextFileHeader gas r) as [[h r1]|e|m|];
      try (cbn [fst reportLines]; rewrite append_nil_r; reflexivity).
    destruct (Seek r1 0%Z SeekCurrent) as [[pos [e|]] r2].
    + cbn [fst reportLines]. rewrite append_nil_r. reflexivity.
    + rewrite IH. cbn [reportLines]. apply append_assoc.
Qed.

(** A stream without the signature: the first scan ends the run. *)
Lemma main_no_signature (gas : nat) (fs : filesystem) (prog file : string)
      (data : list byte) :
  fs file = Some data ->
  noneFrom data sepBytes 0 ->
  length data < gas ->
  main gas fs [prog; file]
  = if (1 <=? length data) && (length data <? 3)
    then (EmptyString, Abort "slice bounds out of range")
    else (("EOF" ++ newline)%string, Exit 0).
Proof.
  intros Hfs Hnone Hgas. unfold main. cbn [length Nat.eqb nth_error].
  unfold searchFileHeaders, os_Open. rewrite Hfs.
  destruct gas as [|gas]; [lia|].
  cbn [searchLoop]. unfold nextFileHeader. cbn [nextLoop].
  unfold attempt, candidate.
  rewrite scanReader_none by (cbn [contents offset]; assumption || lia).
  cbn [contents offset]. rewrite Nat.sub_0_r.
  destruct (Nat.leb_spec (length data) 0) as [H0|H0];
    destruct (Nat.ltb_spec (length data) 3) as [H3|H3];
    destruct (Nat.leb_spec 1 (length data)) as [H1|H1];
    try lia; reflexivity.
Qed.

(** ** Encoding and decoding little-endian fields *)

Lemma byteZ_Zbyte (z : Z) : byteZ (Zbyte z) = (z mod 256)%Z.
Proof.
  unfold byteZ, Zbyte.
  assert (Hr : (0 <= z mod 256 < 256)%Z) by (apply Z.mod_pos_bound; lia).
  destruct (Byte.of_N (Z.to_N (z mod 256))) as [b|] eqn:E.
  - apply Byte.to_of_N in E. rewrite E. lia.
  - apply Byte.of_N_None_iff in E. lia.
Qed.

(** Bits that do not meet are added by [Z.lor]. *)
Lemma lor_shiftl_add (a b n : Z) :
  (0 <= n)%Z -> (0 <= a < 2 ^ n)%Z ->
  Z.lor a (Z.shiftl b n) = (a + Z.shiftl b n)%Z.
Proof.
  intros Hn Ha. symmetry.
  assert (Hland : Z.land a (Z.shiftl b n) = 0%Z).
  { apply Z.bits_inj'. intros m Hm. rewrite Z.land_spec, Z.bits_0.
    destruct (Z.lt_ge_cases m n) as [Hlt|Hge].
    - rewrite (Z.shiftl_spec_low b n m Hlt). apply andb_false_r.
    - rewrite <- (Z.mod_small a (2 ^ n)) by lia.
      rewrite Z.mod_pow2_bits_high by lia. reflexivity. }
  rewrite Z.add_nocarry_lxor by exact Hland.
  apply Z.lxor_lor. exact Hland.
Qed.

Lemma Uint16_PutUint16 (v : Z) (l : list byte) :
  (0 <= v < 65536)%Z ->
  Uint16 (Zbyte v :: Zbyte (Z.shiftr v 8) :: l) = v.
Proof.
  intros Hv. unfold Uint16. cbn [nth].
  rewrite !byteZ_Zbyte.
  rewrite lor_shiftl_add by (try apply Z.mod_pos_bound; lia).
  rewrite Z.shiftl_mul_pow2, Z.shiftr_div_pow2 by lia.
  change (2 ^ 8)%Z with 256%Z.
  Z.div_mod_to_equations. lia.
Qed.

Lemma Uint32_PutUint32 (v : Z) (l : list byte) :
  (0 <= v < 4294967296)%Z ->
  Uint32 (Zbyte v :: Zbyte (Z.shiftr v 8) :: Zbyte (Z.shiftr v 16)
                :: Zbyte (Z.shiftr v 24) :: l) = v.
Proof.
  intros Hv. unfold Uint32. cbn [nth].
  rewrite !byteZ_Zbyte.
  rewrite !Z.shiftr_div_pow2 by lia.
  change (2 ^ 8)%Z with 256%Z. change (2 ^ 16)%Z with 65536%Z.
  change (2 ^ 24)%Z with 16777216%Z.
  assert (H0 : (0 <= v mod 256 < 256)%Z) by (apply Z.mod_pos_bound; lia).
  assert (H1 : (0 <= (v / 256) mod 256 < 256)%Z)
    by (apply Z.mod_pos_bound; lia).
  assert (H2 : (0 <= (v / 65536) mod 256 < 256)%Z)
    by (apply Z.mod_pos_bound; lia).
  assert (H3 : (0 <= (v / 16777216) mod 256 < 256)%Z)
    by (apply Z.mod_pos_bound; lia).
  rewrite (lor_shiftl_add (v mod 256)) by lia.
  rewrite (Z.shiftl_mul_pow2 _ 8) by lia. change (2 ^ 8)%Z with 256%Z.
  rewrite (lor_shiftl_add _ _ 16) by (change (2 ^ 16)%Z with 65536%Z; lia).
  rewrite (Z.shiftl_mul_pow2 _ 16) by lia. change (2 ^ 16)%Z with 65536%Z.
  rewrite (lor_shiftl_add _ _ 24) by (change (2 ^ 24)%Z with 16777216%Z; lia).
  rewrite (Z.shiftl_mul_pow2 _ 24) by lia.
  change (2 ^ 24)%Z with 16777216%Z.
  clear H0 H1 H2 H3.
  Z.div_mod_to_equations. lia.
Qed.

Lemma length_list_byte_of_string (s : string) :
  length (list_byte_of_string s) = String.length s.
Proof.
  induction s as [|a s IH]; simpl; [reflexivity|].
  f_equal. exact IH.
Qed.

Lemma fixedPart_length (h : FileHeader) : length (fixedPart h) = 30.
Proof. reflexivity. Qed.

Lemma localHeader_length (h : FileHeader) :
  length (localHeader h) = 30 + String.length (name h) + length (extra h).
Proof.
  unfold localHeader.
  rewrite !length_app, fixedPart_length, length_list_byte_of_string. lia.
Qed.

(** The fixed fields of an encoded header decode to themselves. *)
Lemma fieldsAt_localHeader (h : FileHeader) :
  wellFormed h ->
  fieldsAt (localHeader h) 4
  = mkFileHeader (version h) (flags h) (compression h) (mtime h) (mdate h)
                 (namelen h) (extralen h) (crc32 h) (csize h) (size h)
                 EmptyString [].
Proof.
  intros ((R1 & R2 & R3 & R4 & R5 & R6 & R7 & R8) & Hn & He & Hsum).
  unfold fieldsAt, localHeader, fixedPart.
  rewrite sepBytes_eq. unfold PutUint16, PutUint32.
  cbn [app skipn Nat.add].
  rewrite !Uint16_PutUint16, !Uint32_PutUint32 by lia.
  reflexivity.
Qed.

Lemma fieldsAt_slice_at (data : list byte) (q e k : nat) :
  k + 26 <= e - q -> fieldsAt (slice data q e) k = fieldsAt data (q + k).
Proof.
  intros He. unfold fieldsAt.
  rewrite !Uint16_slice, !Uint32_slice by lia.
  rewrite !Nat.add_assoc. reflexivity.
Qed.

Lemma slice_app_mid (a b c : list byte) :
  slice (a ++ b ++ c) (length a) (length a + length b) = b.
Proof.
  unfold slice. rewrite skipn_app, skipn_all, Nat.sub_diag. cbn [skipn app].
  replace (length a + length b - length a) with (length b) by lia.
  rewrite firstn_app, firstn_all, Nat.sub_diag. cbn [firstn].
  apply app_nil_r.
Qed.

Lemma slice_app_end (a b c : list byte) :
  slice (a ++ b ++ c) (length a + length b)
        (length a + length b + length c) = c.
Proof.
  unfold slice. rewrite app_assoc, skipn_app, <- length_app, skipn_all.
  rewrite Nat.sub_diag. cbn [skipn app].
  replace (length (a ++ b) + length c - length (a ++ b)) with (length c) by lia.
  apply firstn_all.
Qed.

(** ** Headers with their lookahead inside one read *)

(** The first read of a scan holds the first signature and [headersize]
    bytes behind it: the candidate is the rest of that read. *)
Lemma candidate_in_first_read (gas : nat) (f : File) (i : nat) :
  firstFrom (contents f) sepBytes (offset f) i ->
  i + 4 + headersize <= chunkEnd (contents f) (offset f) bufSize ->
  candidate (S gas) f
  = Done (slice (contents f) (i + 4)
                (chunkEnd (contents f) (offset f) bufSize),
          [], at_offset f (chunkEnd (contents f) (offset f) bufSize)).
Proof.
  intros Hfirst Hend. unfold candidate, scanReader.
  assert (He : nextEnd f [] = chunkEnd (contents f) (offset f) bufSize).
  { unfold nextEnd. simpl length. rewrite Nat.sub_0_r. reflexivity. }
  assert (Hle : chunkEnd (contents f) (offset f) bufSize
                <= length (contents f)) by (unfold chunkEnd; lia).
  rewrite (scanLoop_hit sepBytes sepBytes_pos sepBytes_fits gas f [] i).
  - rewrite He, sepBytes_length. apply topUp_enough.
    rewrite slice_length by lia. lia.
  - apply carried_nil; [apply sepBytes_pos | apply sepBytes_fits].
  - simpl length. rewrite Nat.sub_0_r. exact Hfirst.
  - rewrite He, sepBytes_length. lia.
Qed.

(** A candidate that is the rest of a read with [headersize] bytes behind
    the signature of a well-formed header is decoded field for field, name
    and extra included, and the cursor is left at the end of the header. *)
Lemma attempt_header_from_candidate
      (gas : nat) (f : File) (h : FileHeader) (i e : nat) :
  candidate gas f = Done (slice (contents f) (i + 4) e, [], at_offset f e) ->
  e <= length (contents f) ->
  i + 4 + headersize <= e ->
  wellFormed h ->
  slice (contents f) i (i + length (localHeader h)) = localHeader h ->
  attempt gas f = Done (Some h, at_offset f (i + length (localHeader h))).
Proof.
  intros Hc Hle Hend Hwf Hbytes.
  pose proof Hwf as (Hranges & Hn & He & Hsum).
  pose proof (localHeader_length h) as HL.
  assert (Hh : headersize = 285) by reflexivity.
  rewrite (attempt_File _ _ _ _ _ Hc).
  cbn [at_offset offset]. rewrite app_nil_r.
  assert (Hfields : readFields (slice (contents f) (i + 4) e)
                    = fieldsAt (localHeader h) 4).
  { rewrite readFields_layout by (rewrite slice_length; lia).
    rewrite fieldsAt_slice by lia.
    rewrite <- Hbytes, fieldsAt_slice_at by lia. reflexivity. }
  rewrite Hfields, (fieldsAt_localHeader h Hwf).
  assert (Himp : implausible
                   (mkFileHeader (version h) (flags h) (compression h)
                                 (mtime h) (mdate h) (namelen h) (extralen h)
                                 (crc32 h) (csize h) (size h) EmptyString [])
                 = false).
  { apply implausible_spec; cbn [namelen extralen]; try lia.
    unfold withinBounds. cbn [namelen extralen]. lia. }
  rewrite Himp. cbn [namelen extralen].
  rewrite slice_length by lia.
  f_equal. f_equal.
  - unfold withNameExtra. cbn [version flags compression mtime mdate namelen
                               extralen crc32 csize size].
    assert (Ha : Z.to_nat (add16 26 (namelen h)) = 26 + String.length (name h)).
    { unfold add16. rewrite Z.mod_small by lia. lia. }
    assert (Hb : Z.to_nat (add16 (add16 26 (namelen h)) (extralen h))
                 = 26 + String.length (name h) + length (extra h)).
    { unfold add16. rewrite (Z.mod_small (26 + _)) by lia.
      rewrite Z.mod_small by lia. lia. }
    rewrite Ha, Hb, !slice_slice by lia.
    assert (Hname : slice (contents f) (i + 4 + 26)
                          (i + 4 + (26 + String.length (name h)))
                    = list_byte_of_string (name h)).
    { replace (i + 4 + 26) with (i + 30) by lia.
      replace (i + 4 + (26 + String.length (name h)))
        with (i + (30 + String.length (name h))) by lia.
      rewrite <- (slice_slice (contents f) i (i + length (localHeader h)))
        by lia.
      rewrite Hbytes. unfold localHeader.
      rewrite <- (fixedPart_length h) at 1 2.
      rewrite <- length_list_byte_of_string.
      apply slice_app_mid. }
    assert (Hextra : slice (contents f)
                           (i + 4 + (26 + String.length (name h)))
                           (i + 4 + (26 + String.length (name h)
                                     + length (extra h)))
                     = extra h).
    { replace (i + 4 + (26 + String.length (name h)))
        with (i + (30 + String.length (name h))) by lia.
      replace (i + 4 + (26 + String.length (name h) + length (extra h)))
        with (i + (30 + String.length (name h) + length (extra h))) by lia.
      rewrite <- (slice_slice (contents f) i (i + length (localHeader h)))
        by lia.
      rewrite Hbytes. unfold localHeader.
      rewrite <- (fixedPart_length h) at 1 2.
      rewrite <- length_list_byte_of_string.
      apply slice_app_end. }
    rewrite Hname, Hextra, string_of_list_byte_of_string.
    destruct h; reflexivity.
  - f_equal. lia.
Qed.

(** The counterpart of C4 that the code does satisfy: a well-formed header
    whose signature is the first one met and has [headersize] bytes behind
    it inside the scanner's read is decoded field for field, name and extra
    included, and the cursor is left at its end. *)
Lemma header_reproduced_when_buffered
      (gas : nat) (f : File) (h : FileHeader) (i : nat) :
  wellFormed h ->
  firstFrom (contents f) sepBytes (offset f) i ->
  slice (contents f) i (i + length (localHeader h)) = localHeader h ->
  i + 4 + headersize <= chunkEnd (contents f) (offset f) bufSize ->
  attempt (S gas) f
  = Done (Some h, at_offset f (i + length (localHeader h))).
Proof.
  intros Hwf Hfirst Hbytes Hend.
  apply (attempt_header_from_candidate
           (S gas) f h i (chunkEnd (contents f) (offset f) bufSize));
    try assumption.
  - apply candidate_in_first_read; assumption.
  - unfold chunkEnd. lia.
Qed.

Lemma attempt_scan_failure {R : Type} `{ReadSeeker R} (gas : nat) (r : R)
      (e : error) :
  scanReader gas r sepBytes = Fail e -> attempt gas r = Fail e.
Proof.
  intros Hscan. unfold attempt, candidate. rewrite Hscan. reflexivity.
Qed.

Lemma occursAt_localHeader (h : FileHeader) (tail : list byte) :
  occursAt (localHeader h ++ tail) sepBytes 0.
Proof. reflexivity. Qed.

(** An archive that starts with the header of [a.txt], declared size 12 and
    no extra field, with at least 285 bytes behind the signature and no
    further signature: the header line, then the line of the error. *)
Lemma main_single_entry (gas : nat) (fs : filesystem) (prog file : string)
      (h : FileHeader) (tail : list byte) :
  fs file = Some (localHeader h ++ tail) ->
  wellFormed h ->
  name h = "a.txt"%string -> extra h = [] -> size h = 12%Z ->
  254 <= length tail ->
  noneFrom (localHeader h ++ tail) sepBytes 35 ->
  35 + length tail < gas ->
  main gas fs [prog; file]
  = (("a.txt at 35 len 12" ++ newline ++ "EOF" ++ newline)%string, Exit 0).
Proof.
  intros Hfs Hwf Hname Hextra Hsize Htail Hnone Hgas.
  pose proof (localHeader_length h) as HL.
  rewrite Hname, Hextra in HL. cbn [String.length length] in HL.
  assert (Hh : headersize = 285) by reflexivity.
  assert (Hbuf : bufSize = 4096) by reflexivity.
  set (data := localHeader h ++ tail) in *.
  assert (Hlen : length data = 35 + length tail).
  { unfold data. rewrite length_app. lia. }
  unfold main. cbn [length Nat.eqb nth_error].
  unfold searchFileHeaders, os_Open. rewrite Hfs.
  destruct gas as [|[|gas]]; try lia.
  set (f0 := mkFile file data 0).
  assert (Hfirst : attempt (S (S gas)) f0 = Done (Some h, at_offset f0 35)).
  { replace 35 with (0 + length (localHeader h)) by lia.
    apply header_reproduced_when_buffered.
    - exact Hwf.
    - cbn [f0 contents offset]. split; [lia|]. split.
      + apply occursAt_localHeader.
      + intros j _ Hj. lia.
    - cbn [f0 contents]. unfold data, slice. cbn [skipn Nat.add].
      rewrite Nat.sub_0_r, firstn_app, firstn_all, Nat.sub_diag.
      cbn [firstn]. apply app_nil_r.
    - cbn [f0 contents offset]. unfold chunkEnd. lia. }
  assert (Hsecond : attempt (S (S gas)) (at_offset f0 35) = Fail EOF).
  { apply attempt_scan_failure.
    rewrite scanReader_none; cbn [at_offset f0 contents offset].
    - destruct (Nat.leb_spec (length data) 35); [lia|].
      destruct (Nat.ltb_spec (length data - 35) 3); [lia | reflexivity].
    - exact Hnone.
    - lia. }
  cbn [searchLoop]. unfold nextFileHeader at 1. cbn [nextLoop].
  rewrite Hfirst. cbn [Seek File_ReadSeeker]. rewrite File_Seek_tell.
  cbn [at_offset offset f0 path contents].
  cbn [searchLoop]. unfold nextFileHeader. cbn [nextLoop].
  change (mkFile file data 35) with (at_offset f0 35).
  rewrite Hsecond.
  unfold headerLine. rewrite Hname, Hsize. reflexivity.
Qed.

(** Every header the driver obtains from a file was decoded at some offset
    [q] behind a signature, and the position printed with it is the one just
    behind its extra field. *)
Lemma foundHeaders_positions (gas fuel : nat) :
  forall (f : File) (h : FileHeader) (pos : Z),
  In (h, pos) (foundHeaders gas fuel f) ->
  exists q,
    offset f + 4 <= q
    /\ name h = string_of_list_byte
                  (slice (padded (contents f)) (q + 26)
                         (q + 26 + Z.to_nat (namelen h)))
    /\ extra h = slice (padded (contents f))
                       (q + 26 + Z.to_nat (namelen h))
                       (q + 26 + Z.to_nat (namelen h) + Z.to_nat (extralen h))
    /\ pos = Z.of_nat (q + 26 + Z.to_nat (namelen h) + Z.to_nat (extralen h)).
Proof.
  induction fuel as [|fuel IH]; intros f h pos Hin; [contradiction|].
  cbn [foundHeaders] in Hin.
  destruct (nextFileHeader gas f) as [[h1 f1]|e|m|] eqn:Hnext;
    try contradiction.
  cbn [Seek File_ReadSeeker] in Hin. rewrite File_Seek_tell in Hin.
  unfold nextFileHeader in Hnext.
  apply nextLoop_File_inv in Hnext. destruct Hnext as (c & Hc & Hrun).
  apply attempt_accepted_File in Hrun.
  destruct Hrun as (i & q & (Hi & _) & Hq1 & _ & _ & _ & _ & _ & Hn & He & Hf1).
  cbn [at_offset contents offset] in *.
  assert (Ho : offset f1
               = q + 26 + Z.to_nat (namelen h1) + Z.to_nat (extralen h1))
    by (rewrite Hf1; reflexivity).
  assert (Hdata : contents f1 = contents f) by (rewrite Hf1; reflexivity).
  destruct Hin as [Hhead|Htail].
  - injection Hhead as <- <-. exists q.
    split; [lia|]. split; [exact Hn|]. split; [exact He|].
    rewrite Ho. reflexivity.
  - apply IH in Htail. destruct Htail as (q' & Hq' & Hn' & He' & Hpos).
    rewrite Hdata in *. exists q'.
    split; [lia|]. split; [exact Hn'|]. split; [exact He'|]. exact Hpos.
Qed.

(** ** Termination on regular files *)

(** Either the signature occurs at or after [p], first at some [i], or it
    does not occur there at all. *)
Lemma first_or_none (data sep : list byte) (p : nat) :
  (exists i, firstFrom data sep p i) \/ noneFrom data sep p.
Proof.
  destruct (Index (skipn p data) sep) as [k|] eqn:Hk.
  - left. exists (p + k). apply firstFrom_Index. exact Hk.
  - right. apply noneFrom_Index. exact Hk.
Qed.

(** The bound of the model is not what ends a scan of a file. *)
Lemma scanReader_total (gas : nat) (f : File) :
  length (contents f) - offset f < gas ->
  scanReader gas f sepBytes <> OutOfGas.
Proof.
  intros Hgas.
  destruct (first_or_none (contents f) sepBytes (offset f)) as [[i Hfirst]|Hnone].
  - pose proof Hfirst as (Hi & Ho & _).
    pose proof (occursAt_bound _ _ _ sepBytes_pos Ho) as Hb.
    rewrite sepBytes_length in Hb.
    destruct (scanReader_found gas f i Hfirst) as (e & _ & _ & _ & Hrun);
      [lia|].
    rewrite Hrun. discriminate.
  - rewrite (scanReader_none gas f Hnone Hgas).
    destruct (length (contents f) <=? offset f); [discriminate|].
    destruct (length (contents f) - offset f <? 3); discriminate.
Qed.

Lemma attempt_total (gas : nat) (f : File) :
  length (contents f) - offset f < gas ->
  attempt gas f <> OutOfGas.
Proof.
  intros Hgas. pose proof (scanReader_total gas f Hgas) as Hscan.
  destruct (candidate gas f) as [[[rest spare] f2]|e|m|] eqn:Hc.
  - rewrite (attempt_File _ _ _ _ _ Hc).
    destruct (implausible (readFields rest)); discriminate.
  - unfold attempt. rewrite Hc. discriminate.
  - unfold attempt. rewrite Hc. discriminate.
  - exfalso. unfold candidate in Hc.
    destruct (scanReader gas f sepBytes) as [[rest f1]|e|m|];
      try discriminate; [|congruence].
    unfold topUp in Hc. destruct (length rest <? headersize); [|discriminate].
    destruct (Read f1 headersize) as [[got [e|]] f2]; discriminate.
Qed.

Lemma attempt_at_end (gas : nat) (f : File) :
  length (contents f) <= offset f -> attempt (S gas) f = Fail EOF.
Proof.
  intros Hend. apply attempt_scan_failure. unfold scanReader.
  apply (scanLoop_eof sepBytes sepBytes_pos sepBytes_fits); [|exact Hend].
  apply carried_nil; [apply sepBytes_pos | apply sepBytes_fits].
Qed.

Lemma nextLoop_total (gas fuel : nat) :
  forall f : File,
  length (contents f) - offset f < gas ->
  length (contents f) - offset f < fuel ->
  nextLoop gas fuel f <> OutOfGas.
Proof.
  induction fuel as [|fuel IH]; intros f Hgas Hfuel; [lia|].
  cbn [nextLoop]. pose proof (attempt_total gas f Hgas) as Htot.
  destruct (attempt gas f) as [[[h|] f1]|e|m|] eqn:Ha;
    try discriminate; try congruence.
  apply attempt_rejected_File in Ha. destruct Ha as (Hf1 & Hlt & Hle).
  assert (Hdata : contents f1 = contents f) by (rewrite Hf1; reflexivity).
  apply IH; rewrite Hdata; lia.
Qed.

(** A header returned leaves the cursor further on, and the file as it
    was. *)
Lemma nextFileHeader_progress (gas : nat) (f f' : File) (h : FileHeader) :
  nextFileHeader gas f = Done (h, f') ->
  f' = at_offset f (offset f')
  /\ offset f < offset f'
  /\ offset f' < length (contents f) + 566.
Proof.
  intros Hrun. unfold nextFileHeader in Hrun.
  apply nextLoop_File_inv in Hrun. destruct Hrun as (c & Hc & Hrun).
  apply attempt_accepted_File in Hrun.
  destruct Hrun as (i & q & (Hi & Ho & _) & Hq1 & Hq2 & _ & Hw & Hn & He
                    & _ & _ & Hf').
  cbn [at_offset contents offset] in *.
  pose proof (occursAt_bound _ _ _ sepBytes_pos Ho) as Hb.
  rewrite sepBytes_length in Hb.
  destruct Hw as (W1 & W2 & W3).
  assert (Hh : headersize = 285) by reflexivity.
  rewrite Hf'. cbn [at_offset offset]. split; [reflexivity|]. lia.
Qed.

Lemma searchLoop_total (gas fuel : nat) :
  forall (f : File) (out : string),
  length (contents f) < gas ->
  length (contents f) + 566 - offset f < fuel ->
  exists out',
    (exists e, searchLoop gas fuel f out = (out', Fail e))
    \/ (exists m, searchLoop gas fuel f out = (out', Panic m)).
Proof.
  induction fuel as [|fuel IH]; intros f out Hgas Hfuel; [lia|].
  cbn [searchLoop].
  destruct (nextFileHeader gas f) as [[h f1]|e|m|] eqn:Hnext.
  - apply nextFileHeader_progress in Hnext.
    destruct Hnext as (Hf1 & Hlt & Hle).
    assert (Hdata : contents f1 = contents f) by (rewrite Hf1; reflexivity).
    cbn [Seek File_ReadSeeker]. rewrite File_Seek_tell.
    apply IH; rewrite Hdata; lia.
  - exists out. left. exists e. reflexivity.
  - exists out. right. exists m. reflexivity.
  - exfalso. revert Hnext. apply nextLoop_total; lia.
Qed.

(** On any file, with a bound beyond its length, [main] either prints the
    error that ended the search and returns with status 0, or the scanner
    has panicked on a window of one or two bytes. *)
Lemma main_terminates (gas : nat) (fs : filesystem) (prog file : string) :
  (forall data, fs file = Some data -> length data + 566 < gas) ->
  exists out,
    (exists e, main gas fs [prog; file]
               = ((out ++ Error e ++ newline)%string, Exit 0))
    \/ (exists m, main gas fs [prog; file] = (out, Abort m)).
Proof.
  intros Hgas. unfold main. cbn [length Nat.eqb nth_error].
  unfold searchFileHeaders, os_Open.
  destruct (fs file) as [data|] eqn:Hfs.
  - specialize (Hgas data eq_refl).
    destruct (searchLoop_total gas gas (mkFile file data 0) EmptyString)
      as (out & [[e Hrun]|[m Hrun]]); cbn [contents offset]; try lia.
    + exists out. left. exists e. rewrite Hrun. reflexivity.
    + exists out. right. exists m. rewrite Hrun. reflexivity.
  - exists EmptyString. left. eexists. reflexivity.
Qed.

(** * Further properties of the code *)

(** ** The scanner *)

(** On a regular file [scanReader] returns the first signature at or after
    the cursor, wherever it lies: the slice returned starts immediately
    behind it, ends at the cursor, and holds at most [bufSize - 4] bytes. *)
Theorem scanReader_returns_first_signature (gas : nat) (f : File) (i : nat) :
  firstFrom (contents f) sepBytes (offset f) i ->
  i + 4 - offset f < gas ->
  exists rest f1,
    scanReader gas f sepBytes = Done (rest, f1)
    /\ contents f1 = contents f /\ path f1 = path f
    /\ rest = slice (contents f) (i + 4) (offset f1)
    /\ offset f1 - length rest = i + 4
    /\ length rest <= bufSize - 4
    /\ offset f1 <= length (contents f).
Proof.
  intros Hfirst Hgas.
  destruct (scanReader_found gas f i Hfirst Hgas) as (e & H1 & H2 & H3 & Hrun).
  exists (slice (contents f) (i + 4) e), (at_offset f e).
  cbn [at_offset contents path offset].
  rewrite slice_length by lia.
  repeat split; try assumption; try reflexivity; lia.
Qed.

Lemma scanReader_returns_first_signature_witness :
  exists rest f1,
    scanReader 4099 (mkFile "a.zip" splitArchive 0) sepBytes = Done (rest, f1)
    /\ contents f1 = splitArchive /\ path f1 = "a.zip"%string
    /\ rest = slice splitArchive (4094 + 4) (offset f1)
    /\ offset f1 - length rest = 4094 + 4
    /\ length rest <= bufSize - 4
    /\ offset f1 <= length splitArchive.
Proof.
  apply (scanReader_returns_first_signature
           4099 (mkFile "a.zip" splitArchive 0) 4094).
  - apply (firstFrom_Index _ _ 0 4094). vm_compute. reflexivity.
  - apply Nat.ltb_lt. vm_compute. reflexivity.
Defined.

(** With no signature at or after the cursor [scanReader] returns [io.EOF]
    when nothing or at least three bytes are left, and panics on the slice
    expression [buf[n-start:]] when one or two bytes are left. *)
Theorem scanReader_without_signature (gas : nat) (f : File) :
  noneFrom (contents f) sepBytes (offset f) ->
  length (contents f) - offset f < gas ->
  (length (contents f) <= offset f \/ offset f + 3 <= length (contents f) ->
   scanReader gas f sepBytes = Fail EOF)
  /\ (offset f < length (contents f) < offset f + 3 ->
      scanReader gas f sepBytes = Panic "slice bounds out of range").
Proof.
  intros Hnone Hgas. rewrite (scanReader_none gas f Hnone Hgas).
  destruct (Nat.leb_spec (length (contents f)) (offset f));
    destruct (Nat.ltb_spec (length (contents f) - offset f) 3);
    split; intros; try reflexivity; lia.
Qed.

Lemma scanReader_without_signature_witness :
  (length [x00; x01] <= 0 \/ 0 + 3 <= length [x00; x01] ->
   scanReader 3 (mkFile "a.zip" [x00; x01] 0) sepBytes = Fail EOF)
  /\ (0 < length [x00; x01] < 0 + 3 ->
      scanReader 3 (mkFile "a.zip" [x00; x01] 0) sepBytes
      = Panic "slice bounds out of range").
Proof.
  apply (scanReader_without_signature 3 (mkFile "a.zip" [x00; x01] 0)).
  - apply noneFrom_Index. vm_compute. reflexivity.
  - apply Nat.ltb_lt. vm_compute. reflexivity.
Defined.

(** ** The decoder *)

Lemma chunkEnd_first_read (f : File) :
  nextEnd f [] = chunkEnd (contents f) (offset f) bufSize.
Proof. unfold nextEnd. simpl length. rewrite Nat.sub_0_r. reflexivity. Qed.

(** The scanner's first read on a file whose first signature ends inside
    it. *)
Lemma scanReader_first_read (gas : nat) (f : File) (i : nat) :
  firstFrom (contents f) sepBytes (offset f) i ->
  i + 4 <= chunkEnd (contents f) (offset f) bufSize ->
  scanReader (S gas) f sepBytes
  = Done (slice (contents f) (i + 4)
                (chunkEnd (contents f) (offset f) bufSize),
          at_offset f (chunkEnd (contents f) (offset f) bufSize)).
Proof.
  intros Hfirst Hend. unfold scanReader.
  rewrite (scanLoop_hit sepBytes sepBytes_pos sepBytes_fits gas f [] i).
  - rewrite chunkEnd_first_read, sepBytes_length. reflexivity.
  - apply carried_nil; [apply sepBytes_pos | apply sepBytes_fits].
  - simpl length. rewrite Nat.sub_0_r. exact Hfirst.
  - rewrite chunkEnd_first_read, sepBytes_length. exact Hend.
Qed.

Lemma readEnd_le (data : list byte) (p k : nat) :
  readEnd data p k <= length data.
Proof. unfold readEnd. lia. Qed.

(** The scanner on a file whose first signature is completed by the read
    number [k+1] of the scan: the reads before it fill the buffer without a
    match, and that read returns what it holds behind the signature. *)
Lemma scanReader_in_read (gas : nat) (f : File) (i k : nat) :
  firstFrom (contents f) sepBytes (offset f) i ->
  completedBy (offset f) i k ->
  k < gas ->
  scanReader gas f sepBytes
  = Done (slice (contents f) (i + 4) (readEnd (contents f) (offset f) k),
          at_offset f (readEnd (contents f) (offset f) k)).
Proof.
  intros Hfirst [Hprev Hin] Hgas.
  pose proof bufSize_gt as Hbuf.
  pose proof Hfirst as (Hi & Ho & Hmin).
  pose proof (occursAt_bound _ _ _ sepBytes_pos Ho) as Hb.
  rewrite sepBytes_length in Hb.
  destruct k as [|k].
  - rewrite boundary_0 in Hin.
    destruct gas as [|gas]; [lia|].
    rewrite (scanReader_first_read gas f i Hfirst) by (unfold chunkEnd; lia).
    unfold readEnd, chunkEnd. rewrite boundary_0. reflexivity.
  - destruct Hprev as [Hk0|Hprev]; [discriminate|].
    replace (S k - 1) with k in Hprev by lia.
    rewrite boundary_S in Hin.
    assert (Hk : offset f + bufSize <= boundary (offset f) k)
      by (unfold boundary; lia).
    assert (Hl : length (slice (contents f) (boundary (offset f) k - 3)
                               (boundary (offset f) k)) = 3)
      by (rewrite slice_length; lia).
    assert (He : readEnd (contents f) (offset f) (S k)
                 = chunkEnd (contents f) (boundary (offset f) k) (bufSize - 3)).
    { unfold readEnd, chunkEnd. rewrite boundary_S. reflexivity. }
    unfold scanReader.
    replace gas with (S k + S (gas - k - 2)) by lia.
    rewrite (scanLoop_skip_reads k _ f i Hfirst Hprev).
    rewrite (scanLoop_hit sepBytes sepBytes_pos sepBytes_fits _ _ _ i).
    + unfold nextEnd. cbn [at_offset offset contents].
      rewrite Hl, sepBytes_length, He. reflexivity.
    + unfold carried. cbn [at_offset offset contents].
      rewrite Hl, sepBytes_length. repeat split; lia.
    + cbn [at_offset offset contents]. rewrite Hl.
      split; [lia|]. split; [exact Ho|].
      intros j Hj Hlt. apply Hmin; lia.
    + unfold nextEnd. cbn [at_offset offset contents].
      rewrite Hl, sepBytes_length. unfold chunkEnd. lia.
Qed.

(** With [headersize] bytes behind the signature in that read there is no
    topping-up read: the candidate is the rest of the read. *)
Lemma candidate_in_read (gas : nat) (f : File) (i k : nat) :
  firstFrom (contents f) sepBytes (offset f) i ->
  completedBy (offset f) i k ->
  i + 4 + headersize <= readEnd (contents f) (offset f) k ->
  k < gas ->
  candidate gas f
  = Done (slice (contents f) (i + 4) (readEnd (contents f) (offset f) k),
          [], at_offset f (readEnd (contents f) (offset f) k)).
Proof.
  intros Hfirst Hk Hend Hgas. unfold candidate.
  rewrite (scanReader_in_read gas f i k Hfirst Hk Hgas).
  apply topUp_enough.
  pose proof (readEnd_le (contents f) (offset f) k).
  rewrite slice_length by lia. lia.
Qed.

(** A candidate with its lookahead inside the read and implausible lengths
    at offsets 22 and 24 behind the signature is rejected, and the cursor is
    put behind the signature. *)
Lemma attempt_rejects_in_read (gas : nat) (f : File) (i k : nat) :
  firstFrom (contents f) sepBytes (offset f) i ->
  completedBy (offset f) i k ->
  i + 4 + headersize <= readEnd (contents f) (offset f) k ->
  k < gas ->
  implausible (fieldsAt (contents f) (i + 4)) = true ->
  attempt gas f = Done (None, at_offset f (i + 4)).
Proof.
  intros Hfirst Hk Hend Hgas Himp.
  assert (Hh : headersize = 285) by reflexivity.
  pose proof (readEnd_le (contents f) (offset f) k) as Hle.
  rewrite (attempt_File _ _ _ _ _ (candidate_in_read gas f i k Hfirst Hk Hend Hgas)).
  cbn [at_offset offset].
  rewrite readFields_layout by (rewrite slice_length; lia).
  rewrite fieldsAt_slice by lia. rewrite Himp.
  rewrite slice_length by lia. do 3 f_equal. lia.
Qed.

(** A well-formed header with its lookahead inside the read that completes
    its signature is decoded as encoded. *)
Lemma attempt_header_in_read
      (gas : nat) (f : File) (h : FileHeader) (i k : nat) :
  wellFormed h ->
  firstFrom (contents f) sepBytes (offset f) i ->
  slice (contents f) i (i + length (localHeader h)) = localHeader h ->
  completedBy (offset f) i k ->
  i + 4 + headersize <= readEnd (contents f) (offset f) k ->
  k < gas ->
  attempt gas f = Done (Some h, at_offset f (i + length (localHeader h))).
Proof.
  intros Hwf Hfirst Hbytes Hk Hend Hgas.
  apply (attempt_header_from_candidate
           gas f h i (readEnd (contents f) (offset f) k));
    try assumption.
  - apply candidate_in_read; assumption.
  - apply readEnd_le.
Qed.

(** Let the next signature at or after the cursor start a well-formed
    header, and let the read of the scan that completes the signature, the
    first or any later one, hold [headersize] bytes behind it.  Then
    [nextFileHeader] returns that header, every field, name and extra as
    encoded, with the cursor at the end of the header, whatever sizes it
    declares. *)
Theorem nextFileHeader_reproduces_buffered_header
        (gas : nat) (f : File) (h : FileHeader) (i k : nat) :
  wellFormed h ->
  firstFrom (contents f) sepBytes (offset f) i ->
  slice (contents f) i (i + length (localHeader h)) = localHeader h ->
  completedBy (offset f) i k ->
  i + 4 + headersize <= readEnd (contents f) (offset f) k ->
  k < gas ->
  nextFileHeader gas f
  = Done (h, at_offset f (i + length (localHeader h))).
Proof.
  intros Hwf Hfirst Hbytes Hk Hend Hgas.
  destruct gas as [|gas]; [lia|].
  unfold nextFileHeader. cbn [nextLoop].
  rewrite (attempt_header_in_read (S gas) f h i k); try assumption.
  reflexivity.
Qed.

Lemma nextFileHeader_reproduces_buffered_header_witness :
  nextFileHeader 2 (mkFile "a.zip" deepArchive 0)
  = Done (headerA,
          at_offset (mkFile "a.zip" deepArchive 0)
                    (5000 + length (localHeader headerA))).
Proof.
  apply (nextFileHeader_reproduces_buffered_header
           2 (mkFile "a.zip" deepArchive 0) headerA 5000 1).
  - unfold wellFormed, headerA. cbn. repeat split; lia.
  - apply (firstFrom_Index _ _ 0 5000). vm_compute. reflexivity.
  - vm_compute. reflexivity.
  - split; [right; apply Nat.ltb_lt | apply Nat.leb_le];
      vm_compute; reflexivity.
  - apply Nat.leb_le. vm_compute. reflexivity.
  - lia.
Defined.

(** A rejected candidate does not hide the header behind it: when the next
    signature has implausible lengths behind it and the signature after it
    starts a well-formed header, each with [headersize] bytes behind it in
    the read that completes it, whichever read of its scan that is,
    [nextFileHeader] returns that header. *)
Theorem nextFileHeader_skips_rejected_candidate
        (gas : nat) (f : File) (h : FileHeader) (i1 i2 k1 k2 : nat) :
  firstFrom (contents f) sepBytes (offset f) i1 ->
  completedBy (offset f) i1 k1 ->
  i1 + 4 + headersize <= readEnd (contents f) (offset f) k1 ->
  implausible (fieldsAt (contents f) (i1 + 4)) = true ->
  wellFormed h ->
  firstFrom (contents f) sepBytes (i1 + 4) i2 ->
  slice (contents f) i2 (i2 + length (localHeader h)) = localHeader h ->
  completedBy (i1 + 4) i2 k2 ->
  i2 + 4 + headersize <= readEnd (contents f) (i1 + 4) k2 ->
  k1 < gas -> k2 < gas -> 2 <= gas ->
  nextFileHeader gas f
  = Done (h, at_offset f (i2 + length (localHeader h))).
Proof.
  intros Hfirst1 Hk1 Hend1 Himp Hwf Hfirst2 Hbytes Hk2 Hend2 Hg1 Hg2 Hgas.
  destruct gas as [|[|gas]]; [lia | lia |].
  unfold nextFileHeader. cbn [nextLoop].
  rewrite (attempt_rejects_in_read _ f i1 k1 Hfirst1 Hk1 Hend1 Hg1 Himp).
  rewrite (attempt_header_in_read _ (at_offset f (i1 + 4)) h i2 k2);
    try assumption.
  reflexivity.
Qed.

Lemma nextFileHeader_skips_rejected_candidate_witness :
  nextFileHeader 2 (mkFile "a.zip" deepBogusThenHeader 0)
  = Done (headerA,
          at_offset (mkFile "a.zip" deepBogusThenHeader 0)
                    (5000 + 34 + length (localHeader headerA))).
Proof.
  apply (nextFileHeader_skips_rejected_candidate
           2 (mkFile "a.zip" deepBogusThenHeader 0) headerA
           5000 (5000 + 34) 1 0).
  - apply (firstFrom_Index _ _ 0 5000). vm_compute. reflexivity.
  - split; [right; apply Nat.ltb_lt | apply Nat.leb_le];
      vm_compute; reflexivity.
  - apply Nat.leb_le. vm_compute. reflexivity.
  - vm_compute. reflexivity.
  - unfold wellFormed, headerA. cbn. repeat split; lia.
  - apply (firstFrom_Index _ _ (5000 + 4) 30). vm_compute. reflexivity.
  - vm_compute. reflexivity.
  - split; [left; reflexivity | apply Nat.leb_le; vm_compute; reflexivity].
  - apply Nat.leb_le. vm_compute. reflexivity.
  - lia.
  - lia.
  - lia.
Defined.

(** ** The driver *)

(** One round of the driver's loop on a header that is decoded from a read
    of the scanner: its line is printed with the offset of its end, and the
    loop goes on from there. *)
Lemma searchLoop_header_in_read
      (gas fuel : nat) (f : File) (h : FileHeader) (i k : nat) (out : string) :
  wellFormed h ->
  firstFrom (contents f) sepBytes (offset f) i ->
  slice (contents f) i (i + length (localHeader h)) = localHeader h ->
  completedBy (offset f) i k ->
  i + 4 + headersize <= readEnd (contents f) (offset f) k ->
  k < gas ->
  searchLoop gas (S fuel) f out
  = searchLoop gas fuel (at_offset f (i + length (localHeader h)))
      (out ++ headerLine h (Z.of_nat (i + length (localHeader h))))%string.
Proof.
  intros Hwf Hfirst Hbytes Hk Hend Hgas. cbn [searchLoop].
  destruct gas as [|gas]; [lia|].
  unfold nextFileHeader at 1. cbn [nextLoop].
  rewrite (attempt_header_in_read (S gas) f h i k); try assumption.
  cbn [Seek File_ReadSeeker]. rewrite File_Seek_tell. reflexivity.
Qed.

(** Entry contents are not skipped: after a header the search goes on
    immediately behind its extra field.  When two well-formed headers
    follow one another in the stream, back to back or the second inside the
    data the first one declares, the first behind the next signature from
    the cursor and the second behind the next signature from the end of the
    first, each with [headersize] (285) bytes behind its signature in the
    read of its scan that completes the signature, the driver prints the
    line of the first with the offset of its end, then the line of the
    second with the offset of its end, and then what the search from there
    yields. *)
Theorem headers_in_sequence_both_reported
        (gas fuel : nat) (f : File) (h1 h2 : FileHeader) (i1 i2 k1 k2 : nat)
        (out : string) :
  wellFormed h1 -> wellFormed h2 ->
  firstFrom (contents f) sepBytes (offset f) i1 ->
  slice (contents f) i1 (i1 + length (localHeader h1)) = localHeader h1 ->
  completedBy (offset f) i1 k1 ->
  i1 + 4 + headersize <= readEnd (contents f) (offset f) k1 ->
  firstFrom (contents f) sepBytes (i1 + length (localHeader h1)) i2 ->
  slice (contents f) i2 (i2 + length (localHeader h2)) = localHeader h2 ->
  completedBy (i1 + length (localHeader h1)) i2 k2 ->
  i2 + 4 + headersize
  <= readEnd (contents f) (i1 + length (localHeader h1)) k2 ->
  k1 < gas -> k2 < gas ->
  fst (searchLoop gas (S (S fuel)) f out)
  = (out
     ++ headerLine h1 (Z.of_nat (i1 + length (localHeader h1)))
     ++ headerLine h2 (Z.of_nat (i2 + length (localHeader h2)))
     ++ reportLines
          (foundHeaders gas fuel
             (at_offset f (i2 + length (localHeader h2)))))%string.
Proof.
  intros Hwf1 Hwf2 Hfirst1 Hbytes1 Hk1 Hend1 Hfirst2 Hbytes2 Hk2 Hend2 Hg1 Hg2.
  rewrite (searchLoop_header_in_read gas (S fuel) f h1 i1 k1 out);
    try assumption.
  rewrite (searchLoop_header_in_read gas fuel _ h2 i2 k2);
    try assumption.
  cbn [at_offset]. rewrite searchLoop_output, !append_assoc. reflexivity.
Qed.

Lemma headers_in_sequence_both_reported_witness :
  fst (searchLoop 2 2 (mkFile "a.zip" deepTwoEntries 0) EmptyString)
  = (EmptyString
     ++ headerLine headerA (Z.of_nat (5000 + length (localHeader headerA)))
     ++ headerLine headerB
          (Z.of_nat (5000 + 35 + length (localHeader headerB)))
     ++ reportLines
          (foundHeaders 2 0
             (at_offset (mkFile "a.zip" deepTwoEntries 0)
                        (5000 + 35 + length (localHeader headerB)))))%string.
Proof.
  apply (headers_in_sequence_both_reported
           2 0 (mkFile "a.zip" deepTwoEntries 0) headerA headerB
           5000 (5000 + 35) 1 0 EmptyString).
  - unfold wellFormed, headerA. cbn. repeat split; lia.
  - unfold wellFormed, headerB. cbn. repeat split; lia.
  - apply (firstFrom_Index _ _ 0 5000). vm_compute. reflexivity.
  - vm_compute. reflexivity.
  - split; [right; apply Nat.ltb_lt | apply Nat.leb_le];
      vm_compute; reflexivity.
  - apply Nat.leb_le. vm_compute. reflexivity.
  - apply (firstFrom_Index _ _ (5000 + 35) 0). vm_compute. reflexivity.
  - vm_compute. reflexivity.
  - split; [left; reflexivity | apply Nat.leb_le; vm_compute; reflexivity].
  - apply Nat.leb_le. vm_compute. reflexivity.
  - lia.
  - lia.
Defined.

(** ** Signatures near the end of the file *)

Lemma nextFileHeader_short_tail (gas : nat) (f : File) (i : nat) :
  firstFrom (contents f) sepBytes (offset f) i ->
  length (contents f) <= offset f + bufSize ->
  length (contents f) < i + 4 + headersize ->
  nextFileHeader (S gas) f = Fail EOF.
Proof.
  intros Hfirst Hfit Hshort.
  pose proof Hfirst as (Hi & Ho & _).
  pose proof (occursAt_bound _ _ _ sepBytes_pos Ho) as Hb.
  rewrite sepBytes_length in Hb.
  assert (He : chunkEnd (contents f) (offset f) bufSize = length (contents f))
    by (unfold chunkEnd; lia).
  unfold nextFileHeader. cbn [nextLoop]. unfold attempt, candidate.
  rewrite (scanReader_first_read gas f i Hfirst) by (rewrite He; lia).
  rewrite He, topUp_eof; [reflexivity | |].
  - rewrite slice_length by lia. lia.
  - cbn [at_offset contents offset]. lia.
Qed.

(** When the rest of the file fits into the scanner's read and the first
    signature has fewer than [headersize] bytes behind it, the topping-up
    read meets the end of the file: [nextFileHeader] returns [io.EOF], the
    header behind that signature is never decoded, and the driver's loop
    ends without printing a line. *)
Theorem header_before_short_tail_is_lost
        (gas fuel : nat) (f : File) (i : nat) (out : string) :
  firstFrom (contents f) sepBytes (offset f) i ->
  length (contents f) <= offset f + bufSize ->
  length (contents f) < i + 4 + headersize ->
  nextFileHeader (S gas) f = Fail EOF
  /\ searchLoop (S gas) (S fuel) f out = (out, Fail EOF).
Proof.
  intros Hfirst Hfit Hshort.
  pose proof (nextFileHeader_short_tail gas f i Hfirst Hfit Hshort) as Hrun.
  split; [exact Hrun|]. cbn [searchLoop]. rewrite Hrun. reflexivity.
Qed.

Lemma header_before_short_tail_is_lost_witness :
  nextFileHeader 1 (mkFile "a.zip" archiveA 0) = Fail EOF
  /\ searchLoop 1 1 (mkFile "a.zip" archiveA 0) EmptyString
     = (EmptyString, Fail EOF).
Proof.
  apply (header_before_short_tail_is_lost
           0 0 (mkFile "a.zip" archiveA 0) 0 EmptyString).
  - apply (firstFrom_Index _ _ 0 0). vm_compute. reflexivity.
  - apply Nat.leb_le. vm_compute. reflexivity.
  - apply Nat.ltb_lt. vm_compute. reflexivity.
Defined.

(** A file of fewer than 289 bytes never yields a header line: the run
    prints the line [EOF] alone, or panics without output when the file has
    one or two bytes. *)
Theorem small_file_yields_no_header
        (gas : nat) (fs : filesystem) (prog file : string) (data : list byte) :
  fs file = Some data ->
  length data < 4 + headersize ->
  length data < gas ->
  main gas fs [prog; file] = (("EOF" ++ newline)%string, Exit 0)
  \/ main gas fs [prog; file]
     = (EmptyString, Abort "slice bounds out of range").
Proof.
  intros Hfs Hsmall Hgas.
  assert (Hh : headersize = 285) by reflexivity.
  assert (Hbuf : bufSize = 4096) by reflexivity.
  destruct (first_or_none data sepBytes 0) as [[i Hfirst]|Hnone].
  - left. unfold main. cbn [length Nat.eqb nth_error].
    unfold searchFileHeaders, os_Open. rewrite Hfs.
    destruct gas as [|gas]; [lia|]. cbn [searchLoop].
    rewrite (nextFileHeader_short_tail gas (mkFile file data 0) i);
      cbn [contents offset]; try assumption; try lia.
    reflexivity.
  - rewrite (main_no_signature gas fs prog file data Hfs Hnone Hgas).
    destruct ((1 <=? length data) && (length data <? 3)); [right | left];
      reflexivity.
Qed.

Lemma small_file_yields_no_header_witness :
  main 121 (oneFile archiveA) ["hidden_zip"; "a.zip"]%string
  = (("EOF" ++ newline)%string, Exit 0)
  \/ main 121 (oneFile archiveA) ["hidden_zip"; "a.zip"]%string
     = (EmptyString, Abort "slice bounds out of range").
Proof.
  apply (small_file_yields_no_header
           121 (oneFile archiveA) "hidden_zip"%string "a.zip"%string archiveA).
  - reflexivity.
  - apply Nat.ltb_lt. vm_compute. reflexivity.
  - apply Nat.ltb_lt. vm_compute. reflexivity.
Defined.

(** With fewer than 24 bytes in the buffer the reads of the two length
    fields find nothing to decode and leave them at zero. *)
Lemma readFields_short (rest : list byte) :
  length rest < 24 ->
  namelen (readFields rest) = 0%Z /\ extralen (readFields rest) = 0%Z.
Proof.
  intros Hlen.
  do 24 (destruct rest as [|? rest]; [split; reflexivity|]).
  simpl in Hlen. lia.
Qed.

(** A topping-up read that delivers fewer than 24 bytes, the last of the
    file, always yields an accepted header, whichever read of the scan met
    the signature: when that read ends with fewer than [headersize] bytes
    behind the signature and the file has between 1 and 23 bytes more, both
    lengths stay zero, the name and the extra field are empty, and the
    cursor is put 26 bytes behind the start of the topping-up read, beyond
    the end of the file. *)
Theorem short_lookahead_is_accepted_as_empty_header
        (gas : nat) (f : File) (i k : nat) :
  firstFrom (contents f) sepBytes (offset f) i ->
  completedBy (offset f) i k ->
  boundary (offset f) k < i + 4 + headersize ->
  boundary (offset f) k < length (contents f) ->
  length (contents f) < boundary (offset f) k + 24 ->
  k < gas ->
  exists h,
    attempt gas f
    = Done (Some h, at_offset f (boundary (offset f) k + 26))
    /\ namelen h = 0%Z /\ extralen h = 0%Z
    /\ name h = EmptyString /\ extra h = []
    /\ length (contents f) < boundary (offset f) k + 26.
Proof.
  intros Hfirst Hk Hshort Hmore Hfew Hgas.
  assert (Hh : headersize = 285) by reflexivity.
  pose proof Hk as [_ Hin].
  set (e := boundary (offset f) k) in *.
  assert (He : readEnd (contents f) (offset f) k = e)
    by (unfold readEnd; fold e; lia).
  assert (He2 : chunkEnd (contents f) e headersize = length (contents f))
    by (unfold chunkEnd; lia).
  assert (Hc : candidate gas f
               = Done (slice (contents f) e (length (contents f)),
                       repeat x00 (headersize - (length (contents f) - e)),
                       at_offset f (length (contents f)))).
  { unfold candidate.
    rewrite (scanReader_in_read gas f i k Hfirst Hk Hgas).
    rewrite He, topUp_read; cbn [at_offset contents offset].
    - rewrite He2. reflexivity.
    - rewrite slice_length by lia. lia.
    - lia. }
  assert (Hl : length (slice (contents f) e (length (contents f)))
               = length (contents f) - e) by (apply slice_length; lia).
  destruct (readFields_short (slice (contents f) e (length (contents f))))
    as [Hn Hx]; [lia|].
  assert (Himp : implausible
                   (readFields (slice (contents f) e (length (contents f))))
                 = false).
  { unfold implausible. rewrite Hn, Hx. reflexivity. }
  eexists. rewrite (attempt_File _ _ _ _ _ Hc), Himp.
  cbn [at_offset offset]. rewrite Hn, Hx, Hl.
  split; [do 3 f_equal; lia|].
  unfold withNameExtra. rewrite Hn, Hx.
  cbn [namelen extralen name extra].
  change (Z.to_nat (add16 26 0)) with 26.
  change (Z.to_nat (add16 (add16 26 0) 0)) with 26.
  rewrite slice_from_start.
  repeat split; try reflexivity. lia.
Qed.

Lemma short_lookahead_is_accepted_as_empty_header_witness :
  exists h,
    attempt 2 (mkFile "a.zip" deepShortTail 0)
    = Done (Some h,
            at_offset (mkFile "a.zip" deepShortTail 0) (boundary 0 1 + 26))
    /\ namelen h = 0%Z /\ extralen h = 0%Z
    /\ name h = EmptyString /\ extra h = []
    /\ length deepShortTail < boundary 0 1 + 26.
Proof.
  apply (short_lookahead_is_accepted_as_empty_header
           2 (mkFile "a.zip" deepShortTail 0) (4000 + 4000) 1).
  - apply (firstFrom_Index _ _ 0 (4000 + 4000)). vm_compute. reflexivity.
  - split; [right; apply Nat.ltb_lt | apply Nat.leb_le];
      vm_compute; reflexivity.
  - apply Nat.ltb_lt. vm_compute. reflexivity.
  - apply Nat.ltb_lt. vm_compute. reflexivity.
  - apply Nat.ltb_lt. vm_compute. reflexivity.
  - lia.
Defined.

(** ** Progress *)

(** Every iteration of [nextFileHeader] that does not end the call leaves
    the file as it was and the cursor at least four bytes further on, and at
    least thirty when a header is accepted: the rewinds of the decoder never
    reach back to where the scan began. *)
Theorem attempt_advances_cursor
        (gas : nat) (f f' : File) (o : option FileHeader) :
  attempt gas f = Done (o, f') ->
  contents f' = contents f /\ path f' = path f
  /\ offset f + 4 <= offset f'
  /\ (o <> None -> offset f + 30 <= offset f').
Proof.
  intros Hrun. destruct o as [h|].
  - apply attempt_accepted_File in Hrun.
    destruct Hrun as (i & q & (Hi & _) & Hq1 & _ & _ & _ & Hn & He & _ & _ & Hf').
    rewrite Hf'. cbn [at_offset contents path offset].
    repeat split; try reflexivity; lia.
  - apply attempt_rejected_File in Hrun. destruct Hrun as (Hf' & Hlt & _).
    rewrite Hf'. cbn [at_offset contents path offset].
    rewrite Hf' in Hlt. cbn [at_offset offset] in Hlt.
    repeat split; try reflexivity; try lia. intros Hne. contradiction.
Qed.

Lemma attempt_advances_cursor_witness :
  contents (mkFile "a.zip" bogusStream 4) = contents (mkFile "a.zip" bogusStream 0)
  /\ path (mkFile "a.zip" bogusStream 4) = path (mkFile "a.zip" bogusStream 0)
  /\ offset (mkFile "a.zip" bogusStream 0) + 4
     <= offset (mkFile "a.zip" bogusStream 4)
  /\ (@None FileHeader <> None ->
      offset (mkFile "a.zip" bogusStream 0) + 30
      <= offset (mkFile "a.zip" bogusStream 4)).
Proof.
  apply (attempt_advances_cursor
           2 (mkFile "a.zip" bogusStream 0) (mkFile "a.zip" bogusStream 4) None).
  vm_compute. reflexivity.
Defined.

Lemma nextFileHeader_advance (gas : nat) (f f' : File) (h : FileHeader) :
  nextFileHeader gas f = Done (h, f') ->
  contents f' = contents f /\ offset f + 30 <= offset f'.
Proof.
  intros Hrun. unfold nextFileHeader in Hrun.
  apply nextLoop_File_inv in Hrun. destruct Hrun as (c & Hc & Hrun).
  apply attempt_accepted_File in Hrun.
  destruct Hrun as (i & q & (Hi & _) & Hq1 & _ & _ & _ & Hn & He & _ & _ & Hf').
  cbn [at_offset contents offset] in *.
  rewrite Hf'. cbn [at_offset contents offset]. split; [reflexivity | lia].
Qed.

Lemma foundHeaders_from (gas fuel : nat) :
  forall f : File,
  Forall (fun hp => (Z.of_nat (offset f) + 30 <= snd hp)%Z)
         (foundHeaders gas fuel f)
  /\ StronglySorted (fun a b => (snd a + 30 <= snd b)%Z)
                    (foundHeaders gas fuel f).
Proof.
  induction fuel as [|fuel IH]; intros f; cbn [foundHeaders].
  - split; constructor.
  - destruct (nextFileHeader gas f) as [[h f1]|e|m|] eqn:Hnext;
      try (split; constructor).
    cbn [Seek File_ReadSeeker]. rewrite File_Seek_tell.
    apply nextFileHeader_advance in Hnext. destruct Hnext as [_ Hadv].
    destruct (IH f1) as [Hall Hsorted]. split.
    + constructor; [cbn [snd]; lia|].
      eapply Forall_impl; [|exact Hall]. cbn beta. intros hp Hhp. lia.
    + constructor; [exact Hsorted|]. exact Hall.
Qed.

(** The offsets printed in one run on a file are strictly increasing, each
    at least thirty bytes beyond the one before it and beyond the start of
    the search. *)
Theorem reported_offsets_increase (gas fuel : nat) (f : File) :
  Forall (fun hp => (Z.of_nat (offset f) + 30 <= snd hp)%Z)
         (foundHeaders gas fuel f)
  /\ StronglySorted (fun a b => (snd a + 30 <= snd b)%Z)
                    (foundHeaders gas fuel f).
Proof. apply foundHeaders_from. Qed.

Lemma main_terminates_witness :
  exists out,
    (exists e, main 5000 (oneFile lateArchive) ["hidden_zip"; "a.zip"]%string
               = ((out ++ Error e ++ newline)%string, Exit 0))
    \/ (exists m, main 5000 (oneFile lateArchive) ["hidden_zip"; "a.zip"]%string
                  = (out, Abort m)).
Proof.
  apply (main_terminates 5000 (oneFile lateArchive)
                         "hidden_zip"%string "a.zip"%string).
  intros data Hdata. unfold oneFile in Hdata. cbn in Hdata.
  injection Hdata as <-. apply Nat.ltb_lt. vm_compute. reflexivity.
Defined.

(** ** Arguments *)

(** With more than one argument after the program name, the usage text is
    printed and the run goes on as with the first argument alone; the others
    are ignored. *)
Theorem main_with_extra_arguments
        (gas : nat) (fs : filesystem) (prog file a : string)
        (more : list string) :
  main gas fs (prog :: file :: a :: more)
  = ((usage prog ++ fst (main gas fs [prog; file]))%string,
     snd (main gas fs [prog; file])).
Proof.
  unfold main. cbn [length Nat.eqb nth_error].
  destruct (searchFileHeaders gas fs file) as [out [u|e|m|]]; reflexivity.
Qed.

(** ** What a returned header looks like *)

Lemma byteZ_range (b : byte) : (0 <= byteZ b < 256)%Z.
Proof.
  unfold byteZ. pose proof (Byte.to_N_bounded b). lia.
Qed.

Lemma Uint16_range (b : list byte) : (0 <= Uint16 b < 65536)%Z.
Proof.
  unfold Uint16.
  pose proof (byteZ_range (nth 0 b x00)) as H0.
  pose proof (byteZ_range (nth 1 b x00)) as H1.
  rewrite lor_shiftl_add by (change (2 ^ 8)%Z with 256%Z; lia).
  rewrite Z.shiftl_mul_pow2 by lia. change (2 ^ 8)%Z with 256%Z. lia.
Qed.

Lemma Uint32_range (b : list byte) : (0 <= Uint32 b < 4294967296)%Z.
Proof.
  unfold Uint32.
  pose proof (byteZ_range (nth 0 b x00)) as H0.
  pose proof (byteZ_range (nth 1 b x00)) as H1.
  pose proof (byteZ_range (nth 2 b x00)) as H2.
  pose proof (byteZ_range (nth 3 b x00)) as H3.
  rewrite (lor_shiftl_add (byteZ (nth 0 b x00)))
    by (change (2 ^ 8)%Z with 256%Z; lia).
  rewrite (Z.shiftl_mul_pow2 _ 8) by lia. change (2 ^ 8)%Z with 256%Z.
  rewrite (lor_shiftl_add _ _ 16) by (change (2 ^ 16)%Z with 65536%Z; lia).
  rewrite (Z.shiftl_mul_pow2 _ 16) by lia. change (2 ^ 16)%Z with 65536%Z.
  rewrite (lor_shiftl_add _ _ 24) by (change (2 ^ 24)%Z with 16777216%Z; lia).
  rewrite (Z.shiftl_mul_pow2 _ 24) by lia.
  change (2 ^ 24)%Z with 16777216%Z. lia.
Qed.

Lemma binaryRead16_range (buf : list byte) (v : Z) (buf' : list byte) :
  binaryRead 2 Uint16 buf = (v, buf') -> (0 <= v < 65536)%Z.
Proof.
  unfold binaryRead. destruct (length buf <? 2); intros Hv;
    injection Hv as <- _; [lia | apply Uint16_range].
Qed.

Lemma binaryRead32_range (buf : list byte) (v : Z) (buf' : list byte) :
  binaryRead 4 Uint32 buf = (v, buf') -> (0 <= v < 4294967296)%Z.
Proof.
  unfold binaryRead. destruct (length buf <? 4); intros Hv;
    injection Hv as <- _; [lia | apply Uint32_range].
Qed.

Lemma readFields_ranges (rest : list byte) :
  let h := readFields rest in
  (0 <= version h < 65536 /\ 0 <= flags h < 65536
   /\ 0 <= compression h < 65536 /\ 0 <= mtime h < 65536
   /\ 0 <= mdate h < 65536 /\ 0 <= crc32 h < 4294967296
   /\ 0 <= csize h < 4294967296 /\ 0 <= size h < 4294967296)%Z.
Proof.
  unfold readFields.
  repeat match goal with
         | |- context [binaryRead ?n ?d ?b] =>
             let E := fresh "E" in
             destruct (binaryRead n d b) eqn:E
         end.
  cbv zeta. cbn [version flags compression mtime mdate crc32 csize size].
  repeat match goal with
         | E : binaryRead 2 Uint16 _ = _ |- _ =>
             apply binaryRead16_range in E
         | E : binaryRead 4 Uint32 _ = _ |- _ =>
             apply binaryRead32_range in E
         end.
  repeat split; lia.
Qed.

Lemma length_string_of_list_byte (l : list byte) :
  String.length (string_of_list_byte l) = length l.
Proof.
  induction l as [|b l IH]; simpl; [reflexivity|].
  f_equal. exact IH.
Qed.

Lemma padded_length (data : list byte) :
  length (padded data) = length data + headersize.
Proof. unfold padded. rewrite length_app, repeat_length. reflexivity. Qed.

(** Every header [nextFileHeader] returns on a file is well formed: each
    field lies within its width, the name has exactly [namelen] bytes and
    the extra field exactly [extralen], and the two lengths add up to at
    most 255. *)
Theorem returned_header_is_well_formed
        (gas : nat) (f f' : File) (h : FileHeader) :
  nextFileHeader gas f = Done (h, f') -> wellFormed h.
Proof.
  intros Hrun. unfold nextFileHeader in Hrun.
  apply nextLoop_File_inv in Hrun. destruct Hrun as (c & _ & Hrun).
  destruct (attempt_Done_inv _ _ _ _ Hrun) as (rest & spare & f2 & Hc).
  rewrite (attempt_File _ _ _ _ _ Hc) in Hrun.
  destruct (candidate_region _ _ _ _ _ Hc)
    as (i & q & _ & _ & _ & _ & Hq & Hle & _ & _ & Hback).
  cbn [at_offset contents offset] in *.
  destruct (readFields_lengths_nonneg rest) as [Hn He].
  pose proof (readFields_ranges rest) as Hranges. cbv zeta in Hranges.
  destruct (implausible (readFields rest)) eqn:Himp; [discriminate|].
  apply withinBounds_readFields in Himp. pose proof Himp as (B1 & B2 & B3).
  injection Hrun as <- _.
  assert (Hh : headersize = 285) by reflexivity.
  assert (Ha : Z.to_nat (add16 26 (namelen (readFields rest)))
               = 26 + Z.to_nat (namelen (readFields rest))).
  { unfold add16. rewrite Z.mod_small by lia. lia. }
  assert (Hb : Z.to_nat (add16 (add16 26 (namelen (readFields rest)))
                               (extralen (readFields rest)))
               = 26 + Z.to_nat (namelen (readFields rest))
                 + Z.to_nat (extralen (readFields rest))).
  { unfold add16. rewrite (Z.mod_small (26 + _)) by lia.
    rewrite Z.mod_small by lia. lia. }
  unfold wellFormed, withNameExtra.
  cbn [version flags compression mtime mdate namelen extralen crc32 csize
       size name extra].
  rewrite Ha, Hb, !Hback by lia.
  rewrite length_string_of_list_byte.
  rewrite !slice_length by (rewrite ?padded_length; lia).
  split; [exact Hranges|]. repeat split; lia.
Qed.

Lemma returned_header_is_well_formed_witness : wellFormed headerB.
Proof.
  apply (returned_header_is_well_formed
           1 (mkFile "a.zip" twoEntries 35)
           (mkFile "a.zip" twoEntries 72) headerB).
  vm_compute. reflexivity.
Defined.

(** ** Readers that cannot seek *)

Lemma attempt_unseekable {R : Type} `{ReadSeeker R} (gas : nat) (r r' : R)
      (o : option FileHeader) :
  (forall (x : R) (off : Z) (w : whence), snd (fst (Seek x off w)) <> None) ->
  attempt gas r = Done (o, r') -> o = None.
Proof.
  intros Hseek. unfold attempt.
  destruct (candidate gas r) as [[[rest spare] r2]|e|m|]; try discriminate.
  destruct (implausible (readFields rest)).
  - destruct (Seek r2 (- Z.of_nat (length rest))%Z SeekCurrent) as [[pos err] r3].
    intros Hrun. injection Hrun as <- _. reflexivity.
  - match goal with
    | |- context [Seek r2 ?off SeekCurrent] =>
        pose proof (Hseek r2 off SeekCurrent) as Hs;
        destruct (Seek r2 off SeekCurrent) as [[pos [e|]] r3]
    end.
    + discriminate.
    + cbn [fst snd] in Hs. contradiction.
Qed.

(** On a reader whose every [Seek] fails, a pipe for one, [nextFileHeader]
    never returns a header: rejected candidates are passed over and the
    first acceptable one ends the call with the error of its seek. *)
Theorem unseekable_reader_yields_no_header
        {R : Type} `{ReadSeeker R} (gas : nat) (r : R) :
  (forall (x : R) (off : Z) (w : whence), snd (fst (Seek x off w)) <> None) ->
  forall (h : FileHeader) (r' : R), nextFileHeader gas r <> Done (h, r').
Proof.
  intros Hseek h r'. unfold nextFileHeader.
  generalize gas at 2. intros fuel. revert r.
  induction fuel as [|fuel IH]; intros r; cbn [nextLoop]; [discriminate|].
  destruct (attempt gas r) as [[o r1]|e|m|] eqn:Ha; try discriminate.
  apply (attempt_unseekable gas r r1 o Hseek) in Ha. subst o. apply IH.
Qed.

Lemma unseekable_reader_yields_no_header_witness :
  nextFileHeader 2 (mkFifo "pipe" paddedArchive)
  <> Done (headerA, mkFifo "pipe" []).
Proof.
  apply (unseekable_reader_yields_no_header 2 (mkFifo "pipe" paddedArchive)).
  intros x off w. cbn. discriminate.
Defined.

Lemma searchLoop_read_failure_witness :
  searchLoop 1 1 (mkFile "a.zip" archiveA 120) "x"%string
  = ("x"%string, Fail EOF).
Proof.
  apply (searchLoop_read_failure
           0 0 (mkFile "a.zip" archiveA 120) (mkFile "a.zip" archiveA 120)
           [] EOF "x"%string).
  vm_compute. reflexivity.
Defined.

(** * Calls and runs on a regular file, from start to end *)

(** ** How a call can end *)

(** The only error a read of a regular file returns is [io.EOF]. *)
Lemma File_Read_error (f : File) (k : nat) (got : list byte) (e : error)
      (f' : File) :
  File_Read f k = (got, Some e, f') -> e = EOF.
Proof.
  unfold File_Read. destruct (k =? 0); [discriminate|].
  destruct (skipn (offset f) (contents f)); [|discriminate].
  intros Heq. congruence.
Qed.

Lemma scanLoop_File_error (sep : list byte) (gas : nat) :
  forall (f : File) (held : list byte) (e : error),
  scanLoop gas f sep held = Fail e -> e = EOF.
Proof.
  induction gas as [|gas IH]; intros f held e Hrun; [discriminate|].
  cbn [scanLoop Read File_ReadSeeker] in Hrun.
  destruct (File_Read f (bufSize - length held)) as [[got [e'|]] f'] eqn:Hread.
  - injection Hrun as <-. apply (File_Read_error _ _ _ _ _ Hread).
  - destruct (Index (held ++ got) sep); [discriminate|].
    destruct (length (held ++ got) <? length sep - 1); [discriminate|].
    apply IH in Hrun. exact Hrun.
Qed.

(** The only panic of the scanner is the one of [buf[n-start:]]. *)
Lemma scanLoop_panic {R : Type} `{ReadSeeker R} (sep : list byte) (gas : nat) :
  forall (r : R) (held : list byte) (m : string),
  scanLoop gas r sep held = Panic m -> m = "slice bounds out of range"%string.
Proof.
  induction gas as [|gas IH]; intros r held m Hrun; [discriminate|].
  cbn [scanLoop] in Hrun.
  destruct (Read r (bufSize - length held)) as [[got [e'|]] r'];
    [discriminate|].
  destruct (Index (held ++ got) sep); [discriminate|].
  destruct (length (held ++ got) <? length sep - 1).
  - injection Hrun as <-. reflexivity.
  - apply IH in Hrun. exact Hrun.
Qed.

Lemma candidate_File_end (gas : nat) (f : File) :
  (forall e, candidate gas f = Fail e -> e = EOF)
  /\ (forall m, candidate gas f = Panic m
                -> m = "slice bounds out of range"%string).
Proof.
  unfold candidate, scanReader.
  destruct (scanLoop gas f sepBytes []) as [[rest f1]|e0|m0|] eqn:Hs.
  - unfold topUp. destruct (length rest <? headersize).
    + cbn [Read File_ReadSeeker].
      destruct (File_Read f1 headersize) as [[got [e'|]] f'] eqn:Hread;
        split; intros x Hx; try discriminate.
      injection Hx as <-. apply (File_Read_error _ _ _ _ _ Hread).
    + split; intros x Hx; discriminate.
  - split; intros x Hx; [|discriminate].
    injection Hx as <-. apply (scanLoop_File_error _ _ _ _ _ Hs).
  - split; intros x Hx; [discriminate|].
    injection Hx as <-. apply (scanLoop_panic _ _ _ _ _ Hs).
  - split; intros x Hx; discriminate.
Qed.

Lemma attempt_File_end (gas : nat) (f : File) :
  (forall e, attempt gas f = Fail e -> e = EOF)
  /\ (forall m, attempt gas f = Panic m
                -> m = "slice bounds out of range"%string).
Proof.
  destruct (candidate_File_end gas f) as [Hfail Hpanic].
  destruct (candidate gas f) as [[[rest spare] f2]|e0|m0|] eqn:Hc.
  - rewrite (attempt_File _ _ _ _ _ Hc).
    destruct (implausible (readFields rest)); split; intros; discriminate.
  - unfold attempt. rewrite Hc. split; intros x Hx; [|discriminate].
    injection Hx as <-. apply Hfail. reflexivity.
  - unfold attempt. rewrite Hc. split; intros x Hx; [discriminate|].
    injection Hx as <-. apply Hpanic. reflexivity.
  - unfold attempt. rewrite Hc. split; intros; discriminate.
Qed.

Lemma nextLoop_File_end (gas fuel : nat) :
  forall f : File,
  (forall e, nextLoop gas fuel f = Fail e -> e = EOF)
  /\ (forall m, nextLoop gas fuel f = Panic m
                -> m = "slice bounds out of range"%string).
Proof.
  induction fuel as [|fuel IH]; intros f;
    [split; intros; discriminate|].
  cbn [nextLoop].
  destruct (attempt_File_end gas f) as [Hfail Hpanic].
  destruct (attempt gas f) as [[[h|] f1]|e0|m0|].
  - split; intros; discriminate.
  - apply IH.
  - split; intros x Hx; [|discriminate].
    injection Hx as <-. apply Hfail. reflexivity.
  - split; intros x Hx; [discriminate|].
    injection Hx as <-. apply Hpanic. reflexivity.
  - split; intros; discriminate.
Qed.

(** The driver's loop on a file, with bounds beyond the length of the file:
    the lines of the headers found are printed, and the loop ends with
    [io.EOF] or with the panic of the scanner. *)
Lemma searchLoop_File_end (gas fuel : nat) :
  forall (f : File) (out : string),
  length (contents f) < gas ->
  length (contents f) + 566 - offset f < fuel ->
  searchLoop gas fuel f out
  = ((out ++ reportLines (foundHeaders gas fuel f))%string, Fail EOF)
  \/ searchLoop gas fuel f out
     = ((out ++ reportLines (foundHeaders gas fuel f))%string,
        Panic "slice bounds out of range").
Proof.
  induction fuel as [|fuel IH]; intros f out Hgas Hfuel; [lia|].
  cbn [searchLoop foundHeaders].
  destruct (nextLoop_File_end gas gas f) as [Hfail Hpanic].
  fold (nextFileHeader gas f) in Hfail, Hpanic.
  destruct (nextFileHeader gas f) as [[h f1]|e|m|] eqn:Hnext.
  - apply nextFileHeader_progress in Hnext.
    destruct Hnext as (Hf1 & Hlt & Hle).
    assert (Hdata : contents f1 = contents f) by (rewrite Hf1; reflexivity).
    cbn [Seek File_ReadSeeker]. rewrite File_Seek_tell.
    cbn [reportLines]. rewrite <- !append_assoc.
    apply IH; rewrite Hdata; lia.
  - left. rewrite (Hfail e eq_refl). cbn [reportLines].
    rewrite append_nil_r. reflexivity.
  - right. rewrite (Hpanic m eq_refl). cbn [reportLines].
    rewrite append_nil_r. reflexivity.
  - exfalso. revert Hnext. apply nextLoop_total; lia.
Qed.

(** A run of [main] on a file: the header lines and then the line [EOF],
    with exit status 0, or the header lines and the panic of the scanner. *)
Lemma main_File_end (gas : nat) (fs : filesystem) (prog file : string)
      (data : list byte) :
  fs file = Some data ->
  length data + 566 < gas ->
  main gas fs [prog; file]
  = ((reportLines (foundHeaders gas gas (mkFile file data 0))
      ++ "EOF" ++ newline)%string, Exit 0)
  \/ main gas fs [prog; file]
     = (reportLines (foundHeaders gas gas (mkFile file data 0)),
        Abort "slice bounds out of range").
Proof.
  intros Hfs Hgas. unfold main. cbn [length Nat.eqb nth_error].
  unfold searchFileHeaders, os_Open. rewrite Hfs.
  destruct (searchLoop_File_end gas gas (mkFile file data 0) EmptyString)
    as [Hrun|Hrun]; cbn [contents offset]; try lia;
    rewrite Hrun; [left | right]; reflexivity.
Qed.

(** ** Acceptance and rejection *)

Lemma candidate_needs_gas {R : Type} `{ReadSeeker R} (r : R)
      (c : list byte * list byte * R) :
  candidate 0 r <> Done c.
Proof. unfold candidate, scanReader. cbn [scanLoop]. discriminate. Qed.

(** C5.  Let a signature be matched and its lookahead be there: [rest] are
    the bytes that are decoded.  The candidate is accepted exactly when the
    decoded name length, the decoded extra length and their sum are all at
    most 255; [nextFileHeader] then returns its header, with the cursor
    behind the extra field of what was decoded.  A candidate that violates a
    bound is rejected: the iteration ends in [continue] with the cursor
    rewound by [len(rest)], and the same call of [nextFileHeader] goes on
    from there; when the next candidate from there is within the bounds, it
    is the header returned by that call.  The rejection is never an error
    of its own: the call returns an error only when a later read meets the
    end of the file, and that error is [io.EOF]. *)
Theorem accepted_iff_lengths_within_bounds
        (gas : nat) (f : File) (rest spare : list byte) (f2 : File) :
  candidate gas f = Done (rest, spare, f2) ->
  ((exists h f', attempt gas f = Done (Some h, f')
                 /\ namelen h = namelen (readFields rest)
                 /\ extralen h = extralen (readFields rest))
   <-> (namelen (readFields rest) <= 255
        /\ extralen (readFields rest) <= 255
        /\ namelen (readFields rest) + extralen (readFields rest) <= 255)%Z)
  /\ (withinBounds (readFields rest) ->
      nextFileHeader gas f
      = Done (withNameExtra (readFields rest) (rest ++ spare),
              at_offset f (offset f2 - length rest + 26
                           + Z.to_nat (namelen (readFields rest))
                           + Z.to_nat (extralen (readFields rest)))))
  /\ (~ withinBounds (readFields rest) ->
      attempt gas f = Done (None, at_offset f (offset f2 - length rest))
      /\ offset f + 4 <= offset f2 - length rest
      /\ nextFileHeader gas f
         = nextLoop gas (gas - 1) (at_offset f (offset f2 - length rest))
      /\ (forall rest' spare' f2',
             candidate gas (at_offset f (offset f2 - length rest))
             = Done (rest', spare', f2') ->
             withinBounds (readFields rest') ->
             2 <= gas ->
             nextFileHeader gas f
             = Done (withNameExtra (readFields rest') (rest' ++ spare'),
                     at_offset f (offset f2' - length rest' + 26
                                  + Z.to_nat (namelen (readFields rest'))
                                  + Z.to_nat (extralen (readFields rest')))))
      /\ (forall e, nextFileHeader gas f = Fail e ->
                    e = EOF
                    /\ nextLoop gas (gas - 1)
                         (at_offset f (offset f2 - length rest))
                       = Fail EOF)).
Proof.
  intros Hc.
  destruct gas as [|gas]; [exfalso; exact (candidate_needs_gas _ _ Hc)|].
  replace (S gas - 1) with gas by lia.
  pose proof (attempt_File _ _ _ _ _ Hc) as Ha.
  unfold nextFileHeader. cbn [nextLoop].
  fold (withinBounds (readFields rest)).
  destruct (implausible (readFields rest)) eqn:Himp.
  - assert (Hnot : ~ withinBounds (readFields rest)).
    { intros Hw. apply withinBounds_readFields in Hw. congruence. }
    split; [|split].
    + split; [|intros Hw; contradiction].
      intros (h & f' & Hrun & _). rewrite Ha in Hrun. discriminate.
    + intros Hw. contradiction.
    + intros _. rewrite Ha.
      split; [reflexivity|].
      split.
      { destruct (attempt_rejected_File _ _ _ Ha) as (_ & Hlt & _).
        exact Hlt. }
      split; [reflexivity|].
      split.
      * intros rest' spare' f2' Hc' Hw' Hgas.
        destruct gas as [|gas]; [lia|]. cbn [nextLoop].
        rewrite (attempt_File _ _ _ _ _ Hc').
        apply withinBounds_readFields in Hw'. rewrite Hw'.
        reflexivity.
      * intros e Hrun.
        destruct (nextLoop_File_end
                    (S gas) gas (at_offset f (offset f2 - length rest)))
          as [Hfail _].
        pose proof (Hfail e Hrun) as He. subst e. split; [reflexivity|].
        exact Hrun.
  - apply withinBounds_readFields in Himp. split; [|split].
    + split; [intros _; exact Himp|].
      intros _. rewrite Ha. eexists. eexists. split; [reflexivity|].
      split; reflexivity.
    + intros _. rewrite Ha. reflexivity.
    + intros Hnot. contradiction.
Qed.

Lemma accepted_iff_lengths_within_bounds_witness :
  attempt 2 (mkFile "a.zip" bogusThenHeader 0)
  = Done (None, mkFile "a.zip" bogusThenHeader 4)
  /\ nextFileHeader 2 (mkFile "a.zip" bogusThenHeader 0)
     = Done (headerA, mkFile "a.zip" bogusThenHeader 69).
Proof.
  destruct (accepted_iff_lengths_within_bounds
              2 (mkFile "a.zip" bogusThenHeader 0)
              (skipn 4 bogusThenHeader) []
              (mkFile "a.zip" bogusThenHeader 369))
    as (_ & _ & Hrej); [vm_compute; reflexivity|].
  destruct Hrej as (Ha & _ & _ & Hnext & _).
  { intros Hw. apply withinBounds_readFields in Hw.
    vm_compute in Hw. discriminate. }
  split; [exact Ha|].
  rewrite (Hnext (skipn 38 bogusThenHeader) []
                 (mkFile "a.zip" bogusThenHeader 369)).
  - vm_compute. reflexivity.
  - vm_compute. reflexivity.
  - apply withinBounds_readFields. vm_compute. reflexivity.
  - lia.
Defined.

(** ** The end of a run *)




(** A run on a well-formed archive, evaluated: one header is found, and the
    output is its line followed by the line [EOF], with exit status 0. *)
Lemma main_on_commented_archive :
  length commentedArchive = 320
  /\ foundHeaders 887 887 (mkFile "a.zip" commentedArchive 0)
     = [(headerA, 35%Z)]
  /\ main 887 (oneFile commentedArchive) ["hidden_zip"; "a.zip"]%string
     = (("a.txt at 35 len 12" ++ newline ++ "EOF" ++ newline)%string, Exit 0).
Proof. repeat split; vm_compute; reflexivity. Qed.

(** Runs that end in the panic: a file of two bytes, and a file in which
    the cursor is left one byte before the end. *)
Lemma main_panics_on_short_remainder :
  main 569 (oneFile [x00; x01]) ["hidden_zip"; "a.zip"]%string
  = (EmptyString, Abort "slice bounds out of range")
  /\ main 3 (oneFile (repeat x00 4000 ++ sepBytes ++ repeat x00 119))
          ["hidden_zip"; "a.zip"]%string
     = ((" at 4122 len 0" ++ newline)%string,
        Abort "slice bounds out of range").
Proof. split; vm_compute; reflexivity. Qed.

(** ** The lines of a run *)

(** One round of the driver's loop on a header that is decoded from a read
    of the scanner: the header heads the list of the headers found, with the
    offset of its end. *)
Lemma foundHeaders_header_in_read
      (gas fuel : nat) (f : File) (h : FileHeader) (i k : nat) :
  wellFormed h ->
  firstFrom (contents f) sepBytes (offset f) i ->
  slice (contents f) i (i + length (localHeader h)) = localHeader h ->
  completedBy (offset f) i k ->
  i + 4 + headersize <= readEnd (contents f) (offset f) k ->
  k < gas ->
  foundHeaders gas (S fuel) f
  = (h, Z.of_nat (i + length (localHeader h)))
      :: foundHeaders gas fuel (at_offset f (i + length (localHeader h))).
Proof.
  intros Hwf Hfirst Hbytes Hk Hend Hgas. cbn [foundHeaders].
  destruct gas as [|gas]; [lia|].
  unfold nextFileHeader at 1. cbn [nextLoop].
  rewrite (attempt_header_in_read (S gas) f h i k); try assumption.
  cbn [Seek File_ReadSeeker]. rewrite File_Seek_tell. reflexivity.
Qed.

Lemma reportLines_cons (h : FileHeader) (pos : Z)
      (hs : list (FileHeader * Z)) :
  reportLines ((h, pos) :: hs)
  = (name h ++ " at " ++ decimal pos ++ " len " ++ decimal (size h)
     ++ newline ++ reportLines hs)%string.
Proof.
  cbn [reportLines]. unfold headerLine.
  rewrite !append_assoc. reflexivity.
Qed.

(** C9, as the code has it.  The output of a run on a file is one line
    [<name> at <offset> len <size>] for each header that [nextFileHeader]
    returned, in order, and behind them the line [EOF] when the run ends at
    the end of the file, with exit status 0, or nothing more when the
    scanner panics.  The name is the raw name of the header, the size its
    declared uncompressed size, the offset the position of the cursor
    behind the header; for a well-formed header whose signature is the next
    one from the cursor and has [headersize] bytes behind it in the read
    that completes it, in whatever round of the loop, that header is the
    next one found and the offset is the position immediately behind its
    extra field.  On a stream without the signature there is no header
    line: the output is the line [EOF], or nothing at all when the file has
    one or two bytes and the scanner panics.  On an archive that starts
    with the header of [a.txt], declared size 12 and no extra field, with
    at least 285 bytes behind the signature and no other signature, the
    output is the line [a.txt at 35 len 12] followed by the line [EOF]. *)
Theorem output_is_header_lines_then_error_line
        (gas : nat) (fs : filesystem) (prog file : string)
        (data : list byte) :
  fs file = Some data ->
  length data + 566 < gas ->
  (main gas fs [prog; file]
   = ((reportLines (foundHeaders gas gas (mkFile file data 0))
       ++ "EOF" ++ newline)%string, Exit 0)
   \/ main gas fs [prog; file]
      = (reportLines (foundHeaders gas gas (mkFile file data 0)),
         Abort "slice bounds out of range"))
  /\ (forall h pos hs,
         reportLines ((h, pos) :: hs)
         = (name h ++ " at " ++ decimal pos ++ " len " ++ decimal (size h)
            ++ newline ++ reportLines hs)%string)
  /\ (forall c fuel h i k,
         wellFormed h ->
         firstFrom data sepBytes c i ->
         slice data i (i + length (localHeader h)) = localHeader h ->
         completedBy c i k ->
         i + 4 + headersize <= readEnd data c k ->
         k < gas ->
         foundHeaders gas (S fuel) (mkFile file data c)
         = (h, Z.of_nat (i + 30 + String.length (name h) + length (extra h)))
             :: foundHeaders gas fuel
                  (mkFile file data
                     (i + 30 + String.length (name h) + length (extra h))))
  /\ (noneFrom data sepBytes 0 ->
      main gas fs [prog; file]
      = if (1 <=? length data) && (length data <? 3)
        then (EmptyString, Abort "slice bounds out of range")
        else (("EOF" ++ newline)%string, Exit 0))
  /\ (forall h tail,
         data = localHeader h ++ tail ->
         wellFormed h ->
         name h = "a.txt"%string -> extra h = [] -> size h = 12%Z ->
         254 <= length tail ->
         noneFrom data sepBytes 35 ->
         main gas fs [prog; file]
         = (("a.txt at 35 len 12" ++ newline ++ "EOF" ++ newline)%string,
            Exit 0)).
Proof.
  intros Hfs Hgas.
  split; [apply main_File_end; assumption|].
  split; [apply reportLines_cons|].
  split.
  { intros c fuel h i k Hwf Hfirst Hbytes Hk Hend Hlt.
    replace (i + 30 + String.length (name h) + length (extra h))
      with (i + length (localHeader h))
      by (rewrite (localHeader_length h); lia).
    apply (foundHeaders_header_in_read gas fuel (mkFile file data c) h i k);
      assumption. }
  split.
  { intros Hnone. apply main_no_signature; [assumption | assumption | lia]. }
  intros h tail Hdata Hwf Hname Hextra Hsize Htail Hnone.
  subst data.
  apply (main_single_entry gas fs prog file h tail); try assumption.
  rewrite length_app in Hgas.
  pose proof (localHeader_length h) as HL.
  rewrite Hname, Hextra in HL. cbn [String.length length] in HL. lia.
Qed.

Lemma output_is_header_lines_then_error_line_witness :
  main 887 (oneFile commentedArchive) ["hidden_zip"; "a.zip"]%string
  = (("a.txt at 35 len 12" ++ newline ++ "EOF" ++ newline)%string, Exit 0).
Proof.
  apply (proj2 (proj2 (proj2 (proj2
           (output_is_header_lines_then_error_line
              887 (oneFile commentedArchive) "hidden_zip" "a.zip"
              commentedArchive eq_refl
              ltac:(apply Nat.ltb_lt; vm_compute; reflexivity)))))
           headerA (skipn 35 commentedArchive)).
  - vm_compute. reflexivity.
  - unfold wellFormed, headerA. cbn. repeat split; lia.
  - reflexivity.
  - reflexivity.
  - reflexivity.
  - apply Nat.leb_le. vm_compute. reflexivity.
  - apply noneFrom_Index. vm_compute. reflexivity.
Defined.

(** C9 as stated fails on a well-formed archive.  [commentedArchive] holds
    the local header of [a.txt], its twelve bytes, the central directory
    header at 47 and the end of central directory record at 98, which
    counts one entry and declares the 200 bytes of comment that end the
    file.  The header is found and its line printed; the output is that
    line and the line [EOF], not that line alone. *)
Lemma commented_archive_prints_EOF_line :
  slice commentedArchive 0 35 = localHeader headerA
  /\ name headerA = "a.txt"%string /\ size headerA = 12%Z
  /\ slice commentedArchive 35 47
     = list_byte_of_string ("hello world" ++ newline)
  /\ Uint32 (skipn 47 commentedArchive) = 0x02014b50%Z
  /\ Uint32 (skipn 98 commentedArchive) = 0x06054b50%Z
  /\ Uint16 (skipn 108 commentedArchive) = 1%Z
  /\ Uint32 (skipn 114 commentedArchive) = 47%Z
  /\ Uint16 (skipn 118 commentedArchive) = 200%Z
  /\ length commentedArchive = 120 + 200
  /\ noneFrom commentedArchive sepBytes 1
  /\ main 887 (oneFile commentedArchive) ["hidden_zip"; "a.zip"]%string
     = (("a.txt at 35 len 12" ++ newline ++ "EOF" ++ newline)%string, Exit 0)
  /\ fst (main 887 (oneFile commentedArchive) ["hidden_zip"; "a.zip"]%string)
     <> ("a.txt at 35 len 12" ++ newline)%string.
Proof.
  split; [vm_compute; reflexivity|].
  split; [reflexivity|]. split; [reflexivity|].
  split; [vm_compute; reflexivity|].
  split; [vm_compute; reflexivity|].
  split; [vm_compute; reflexivity|].
  split; [vm_compute; reflexivity|].
  split; [vm_compute; reflexivity|].
  split; [vm_compute; reflexivity|].
  split; [vm_compute; reflexivity|].
  split; [apply noneFrom_Index; vm_compute; reflexivity|].
  split; [vm_compute; reflexivity|].
  vm_compute. discriminate.
Qed.

(** ** The offset reported for a header near the end of a read *)

(** C3 at failing inputs.  In [lateTwoEntries] the header of [a.txt] lies at
    4000..4035 and the header of [b.bin] right behind it at 4035..4072; the
    signature of [a.txt] has 92 bytes behind it in the scanner's first read.
    The lookahead is topped up, the bytes behind the signature are dropped
    on line 74, and the header is decoded from offset 4096: the offset
    reported is 4122, not 4035, the search goes on from 4122, and the header
    of [b.bin] is never reported.  In [lateArchive] the offset reported for
    the header at 4000..4035 is 4122 as well.  In [shortTail], a file of
    4106 bytes, the cursor is left at 4122, beyond the end of the file. *)
Theorem reported_offset_is_not_behind_extra_after_top_up :
  firstFrom lateTwoEntries sepBytes 0 4000
  /\ slice lateTwoEntries 4000 (4000 + 35) = localHeader headerA
  /\ firstFrom lateTwoEntries sepBytes (4000 + 35) (4000 + 35)
  /\ slice lateTwoEntries (4000 + 35) (4000 + 35 + 37) = localHeader headerB
  /\ (exists h,
        nextFileHeader 2 (mkFile "a.zip" lateTwoEntries 0)
        = Done (h, mkFile "a.zip" lateTwoEntries 4122)
        /\ name h = EmptyString /\ extra h = [] /\ size h = 0%Z)
  /\ (exists h,
        foundHeaders 3 3 (mkFile "a.zip" lateTwoEntries 0) = [(h, 4122%Z)])
  /\ main 3 (oneFile lateTwoEntries) ["hidden_zip"; "a.zip"]%string
     = ((" at 4122 len 0" ++ newline ++ "EOF" ++ newline)%string, Exit 0)
  /\ firstFrom lateArchive sepBytes 0 4000
  /\ slice lateArchive 4000 (4000 + 35) = localHeader headerA
  /\ (exists h,
        foundHeaders 3 3 (mkFile "a.zip" lateArchive 0) = [(h, 4122%Z)])
  /\ firstFrom shortTail sepBytes 0 4000
  /\ length shortTail = 4106
  /\ (exists h,
        nextFileHeader 1 (mkFile "a.zip" shortTail 0)
        = Done (h, mkFile "a.zip" shortTail 4122)).
Proof.
  split; [apply (firstFrom_Index _ _ 0 4000); vm_compute; reflexivity|].
  split; [vm_compute; reflexivity|].
  split; [apply (firstFrom_Index _ _ (4000 + 35) 0); vm_compute; reflexivity|].
  split; [vm_compute; reflexivity|].
  split.
  { eexists. split; [vm_compute; reflexivity|].
    repeat split; reflexivity. }
  split; [eexists; vm_compute; reflexivity|].
  split; [vm_compute; reflexivity|].
  split; [apply (firstFrom_Index _ _ 0 4000); vm_compute; reflexivity|].
  split; [vm_compute; reflexivity|].
  split; [eexists; vm_compute; reflexivity|].
  split; [apply (firstFrom_Index _ _ 0 4000); vm_compute; reflexivity|].
  split; [vm_compute; reflexivity|].
  eexists. vm_compute. reflexivity.
Qed.
